(** * CodeHub: the snippet view pipeline of [BaseSnippetStorage] and the
    import loop of [SettingsModal]

    A shallow embedding of the client-side logic of the repository:

    - [BaseSnippetStorage] (second document of
      [client/src/components/snippets/embed/EmbedView.tsx]): the facets
      [languages] and [allCategories], the memoised [filteredSnippets]
      (filter then sort), the category toggle [handleCategoryClick] and the
      recycle-bin handlers [openPermanentDeleteAllModal] and
      [handlePermanentDeleteAllConfirm];
    - [SettingsModal] ([handleImportFile]): the sequential import loop with
      its progress record.

    JavaScript values are modelled as the code has them: strings as
    [string], arrays as [list], the 0/1 flags as integers, the result of a
    comparator as a [number] that may be [NaN]. *)

From Stdlib Require Import ZArith List String Ascii Bool Lia.
From Stdlib Require Import Permutation Sorted DecimalString.
Import ListNotations.

Local Open Scope string_scope.
Local Open Scope Z_scope.

(** ** JavaScript numbers, as far as the comparators need them *)

(** The value of a comparator: an integer or [NaN] (what
    [new Date(s).getTime()] yields on a string that is no date, and what a
    difference with it yields). *)
Inductive number : Type :=
| Num (z : Z)
| NaN.

(** [a - b] on numbers. *)
Definition minus (a b : number) : number :=
  match a, b with
  | Num x, Num y => Num (x - y)
  | _, _ => NaN
  end.

(** ** [Array.prototype.sort] *)

Section ArraySort.
Context {A : Type}.
Variable comparefn : A -> A -> number.

(** ECMAScript's SortCompare: the comparator's value, [NaN] read as [+0]. *)
Definition SortCompare (x y : A) : Z :=
  match comparefn x y with
  | Num v => v
  | NaN => 0
  end.

(** [x] goes before the first element it does not sort after. *)
Fixpoint insert (x : A) (l : list A) : list A :=
  match l with
  | [] => [x]
  | y :: l' => if SortCompare x y <=? 0 then x :: y :: l' else y :: insert x l'
  end.

(** The sort is stable (ECMAScript 2019).  Stable insertion is the
    reference algorithm: an element moves past exactly the elements it
    sorts after, so elements that compare equal keep their order. *)
Fixpoint Array_sort (l : list A) : list A :=
  match l with
  | [] => []
  | x :: l' => insert x (Array_sort l')
  end.
End ArraySort.

(** ** Strings *)

(** [a.includes(x)] on an array of strings. *)
Definition Array_includes (a : list string) (x : string) : bool :=
  existsb (String.eqb x) a.

(** [s.includes(sub)]: [sub] starts at some position of [s]. *)
Fixpoint includes (s sub : string) : bool :=
  String.prefix sub s
  || match s with
     | EmptyString => false
     | String _ s' => includes s' sub
     end.

(** [a.join(sep)]. *)
Definition join (sep : string) (a : list string) : string := String.concat sep a.

(** A non-empty string is truthy. *)
Definition truthy (s : string) : bool := negb (s =? "")%string.

(** A continuation byte of UTF-8. *)
Definition isContinuation (b : ascii) : bool :=
  ((128 <=? N_of_ascii b) && (N_of_ascii b <? 192))%N.

(** The UTF-16 code units of a JavaScript string, read off the UTF-8 bytes
    that hold it here: a code point below U+10000 is one unit, a code point
    from U+10000 on is a surrogate pair.  A byte that starts no well-formed
    sequence reads as U+FFFD, as a decoder gives it. *)
Fixpoint utf16 (s : string) : list N :=
  match s with
  | EmptyString => []
  | String b1 r1 =>
      let n1 := N_of_ascii b1 in
      let replaced := (65533 :: utf16 r1)%N in
      if (n1 <? 128)%N then n1 :: utf16 r1
      else if (n1 <? 224)%N then
        match r1 with
        | String b2 r2 =>
            if (194 <=? n1)%N && isContinuation b2
            then ((n1 - 192) * 64 + (N_of_ascii b2 - 128))%N :: utf16 r2
            else replaced
        | EmptyString => replaced
        end
      else if (n1 <? 240)%N then
        match r1 with
        | String b2 (String b3 r3) =>
            let cp := ((n1 - 224) * 4096 + (N_of_ascii b2 - 128) * 64
                       + (N_of_ascii b3 - 128))%N in
            if isContinuation b2 && isContinuation b3 && (2048 <=? cp)%N
               && negb ((55296 <=? cp)%N && (cp <? 57344)%N)
            then cp :: utf16 r3
            else replaced
        | _ => replaced
        end
      else
        match r1 with
        | String b2 (String b3 (String b4 r4)) =>
            let cp := ((n1 - 240) * 262144 + (N_of_ascii b2 - 128) * 4096
                       + (N_of_ascii b3 - 128) * 64 + (N_of_ascii b4 - 128))%N in
            if isContinuation b2 && isContinuation b3 && isContinuation b4
               && (65536 <=? cp)%N && (cp <? 1114112)%N
            then (55296 + (cp - 65536) / 1024)%N
                 :: (56320 + (cp - 65536) mod 1024)%N :: utf16 r4
            else replaced
        | _ => replaced
        end
  end.

(** Sequences of code units, the first difference deciding, a proper
    prefix first. *)
Fixpoint compareUnits (a b : list N) : comparison :=
  match a, b with
  | [], [] => Eq
  | [], _ :: _ => Lt
  | _ :: _, [] => Gt
  | x :: a', y :: b' =>
      match (x ?= y)%N with
      | Eq => compareUnits a' b'
      | ne => ne
      end
  end.

(** The comparator of [sort()] called with no argument: strings by UTF-16
    code unit. *)
Definition codeUnitCompare (a b : string) : number :=
  match compareUnits (utf16 a) (utf16 b) with
  | Lt => Num (-1)
  | Eq => Num 0
  | Gt => Num 1
  end.

(** ASCII fragment of [toLowerCase]: [A]-[Z] to [a]-[z], every other byte
    kept. *)
Definition asciiLowerChar (c : ascii) : ascii :=
  let n := nat_of_ascii c in
  if ((65 <=? n) && (n <=? 90))%nat then ascii_of_nat (n + 32) else c.

Fixpoint asciiLower (s : string) : string :=
  match s with
  | EmptyString => EmptyString
  | String c s' => String (asciiLowerChar c) (asciiLower s')
  end.

Fixpoint isAscii (s : string) : bool :=
  match s with
  | EmptyString => true
  | String c s' => (nat_of_ascii c <? 128)%nat && isAscii s'
  end.

(** ** Dates: the date-only form [YYYY-MM-DD] *)

Definition digit (c : ascii) : option Z :=
  let n := Z.of_nat (nat_of_ascii c) in
  if (48 <=? n) && (n <=? 57) then Some (n - 48) else None.

Definition isLeap (y : Z) : bool :=
  ((y mod 4 =? 0) && negb (y mod 100 =? 0)) || (y mod 400 =? 0).

Definition daysInMonth (y m : Z) : Z :=
  if m =? 2 then (if isLeap y then 29 else 28)
  else if (m =? 4) || (m =? 6) || (m =? 9) || (m =? 11) then 30 else 31.

(** Days from 1970-01-01 to the civil date [y]-[m]-[d] (proleptic
    Gregorian calendar). *)
Definition daysFromCivil (y m d : Z) : Z :=
  let y' := if m <=? 2 then y - 1 else y in
  let era := y' / 400 in
  let yoe := y' - era * 400 in
  let mp := if 2 <? m then m - 3 else m + 9 in
  let doy := (153 * mp + 2) / 5 + d - 1 in
  let doe := yoe * 365 + yoe / 4 - yoe / 100 + doy in
  era * 146097 + doe - 719468.

(** The time value, in milliseconds, of a date-only string: midnight UTC of
    that day.  [None] on any other string (what [Date] does with those is
    left to the platform). *)
Definition isoDate (s : string) : option Z :=
  match s with
  | String y1 (String y2 (String y3 (String y4 (String "-"
      (String m1 (String m2 (String "-" (String d1 (String d2 EmptyString))))))))) =>
      match digit y1, digit y2, digit y3, digit y4, digit m1, digit m2, digit d1, digit d2 with
      | Some a, Some b, Some c, Some d, Some e, Some f, Some g, Some h =>
          let y := a * 1000 + b * 100 + c * 10 + d in
          let m := e * 10 + f in
          let dd := g * 10 + h in
          if (1 <=? m) && (m <=? 12) && (1 <=? dd) && (dd <=? daysInMonth y m)
          then Some (daysFromCivil y m dd * 86400000)
          else None
      | _, _, _, _, _, _, _, _ => None
      end
  | _ => None
  end.

(** ** The platform: JavaScript built-ins and the language table

    [toLowerCase], [localeCompare] and [Date] belong to the JavaScript
    engine, [getLanguageLabel] to [utils/language/languageUtils], which is
    not among the files modelled here.  The pipeline is stated over any
    platform that keeps the laws below:
    - on an ASCII string [toLowerCase] lowers [A]-[Z] and nothing else;
    - [localeCompare] is a consistent comparator (ECMA-402 requires it of a
      collator);
    - a date-only string [YYYY-MM-DD] is midnight UTC of that day. *)
Class Platform : Type := {
  toLowerCase : string -> string;
  localeCompare : string -> string -> Z;
  Date_getTime : string -> number;
  getLanguageLabel : string -> string;
  toLowerCase_ascii : forall s, isAscii s = true -> toLowerCase s = asciiLower s;
  localeCompare_antisym : forall a b,
    Z.sgn (localeCompare b a) = - Z.sgn (localeCompare a b);
  localeCompare_trans : forall a b c,
    localeCompare a b <= 0 -> localeCompare b c <= 0 -> localeCompare a c <= 0;
  Date_getTime_iso : forall s ms, isoDate s = Some ms -> Date_getTime s = Num ms
}.

(** ** Data model ([types/snippets]) *)

(** Modelled from the spec: the declaration of [Snippet] in
    [types/snippets] is missing; the fields are those of the spec's data
    model, which are the ones the components read. *)
Record Fragment : Type := {
  file_name : string;
  language : string;
  code : string
}.

(** Modelled from the spec: [Snippet] of [types/snippets], missing as
    well; the flags are the numbers 0 and 1, [updated_at] is the timestamp
    as the string [Date] parses. *)
Record Snippet : Type := {
  id : string;
  title : string;
  description : string;
  fragments : list Fragment;
  categories : list string;
  is_pinned : Z;
  is_favorite : Z;
  updated_at : string
}.

Inductive SortOrder : Type := newest | oldest | alpha_asc | alpha_desc.

(** The [useState] cells of [BaseSnippetStorage] that the pipeline reads. *)
Record ViewState : Type := {
  searchTerm : string;
  selectedLanguage : string;
  selectedCategories : list string;
  sortOrder : SortOrder
}.

(** The props of [BaseSnippetStorage] that the pipeline reads
    ([showFavorites] absent reads as false; [onPermanentDeleteAll] is
    optional, here whether it was passed). *)
Record Props : Type := {
  snippets : list Snippet;
  includeCodeInSearch : bool;
  showFavorites : bool;
  onPermanentDeleteAll : bool
}.

(** ** The view pipeline of [BaseSnippetStorage] *)

Section Pipeline.
Context {P : Platform}.

(** [Set.prototype.add], the set kept in insertion order. *)
Definition Set_add (s : list string) (x : string) : list string :=
  if Array_includes s x then s else (s ++ [x])%list.

(** [new Set(a)]. *)
Definition Set_of (a : list string) : list string := fold_left Set_add a [].

Definition languages (snippets : list Snippet) : list string :=
  let langSet :=
    fold_left
      (fun langSet snippet =>
         fold_left
           (fun langSet fragment => Set_add langSet (getLanguageLabel (language fragment)))
           (fragments snippet) langSet)
      snippets [] in
  Array_sort codeUnitCompare langSet.

Definition allCategories (snippets : list Snippet) : list string :=
  Array_sort codeUnitCompare (Set_of (flat_map categories snippets)).

Definition basicMatch (search : string) (snippet : Snippet) : bool :=
  includes (toLowerCase (title snippet)) search
  || includes (toLowerCase (description snippet)) search.

Definition fragmentMatch (includeCode : bool) (search : string) (snippet : Snippet) : bool :=
  existsb
    (fun fragment =>
       includes (toLowerCase (file_name fragment)) search
       || includes (toLowerCase (getLanguageLabel (language fragment))) search
       || (includeCode && includes (toLowerCase (code fragment)) search))
    (fragments snippet).

Definition languageMatch (selectedLanguage : string) (snippet : Snippet) : bool :=
  (selectedLanguage =? "")%string
  || existsb
       (fun fragment =>
          (toLowerCase (getLanguageLabel (language fragment))
           =? toLowerCase selectedLanguage)%string)
       (fragments snippet).

Definition categoryMatch (selectedCategories : list string) (snippet : Snippet) : bool :=
  (Z.of_nat (List.length selectedCategories) =? 0)
  || forallb (fun cat => Array_includes (categories snippet) cat) selectedCategories.

(** The callback of [snippets.filter]. *)
Definition keep (p : Props) (st : ViewState) (snippet : Snippet) : bool :=
  if showFavorites p && negb (is_favorite snippet =? 1) then false
  else
    let search := toLowerCase (searchTerm st) in
    (basicMatch search snippet || fragmentMatch (includeCodeInSearch p) search snippet)
    && languageMatch (selectedLanguage st) snippet
    && categoryMatch (selectedCategories st) snippet.

Definition time (s : Snippet) : number := Date_getTime (updated_at s).

(** The callback of [.sort]. *)
Definition compareSnippets (sortOrder : SortOrder) (a b : Snippet) : number :=
  if negb (is_pinned a =? is_pinned b) then Num (is_pinned b - is_pinned a)
  else if (is_pinned a =? 1) && (is_pinned b =? 1) then minus (time b) (time a)
  else
    match sortOrder with
    | newest => minus (time b) (time a)
    | oldest => minus (time a) (time b)
    | alpha_asc => Num (localeCompare (title a) (title b))
    | alpha_desc => Num (localeCompare (title b) (title a))
    end.

Definition filteredSnippets (p : Props) (st : ViewState) : list Snippet :=
  Array_sort (compareSnippets (sortOrder st)) (filter (keep p st) (snippets p)).

(** What the component hands to [SearchAndFilter] and [SnippetList]. *)
Record View : Type := {
  view_languages : list string;
  view_allCategories : list string;
  view_snippets : list Snippet
}.

Definition render (p : Props) (st : ViewState) : View :=
  {| view_languages := languages (snippets p);
     view_allCategories := allCategories (snippets p);
     view_snippets := filteredSnippets p st |}.
End Pipeline.

(** ** URL synchronisation: [handleCategoryClick] *)

(** The object handed to [setSearchParams]: a key is present or absent. *)
Module SearchParams.
Record t : Type := {
  categories : option string;
  language : option string
}.
End SearchParams.

(** The two cells [handleCategoryClick] writes: the view state (through
    [setSelectedCategories]) and the query string (through
    [setSearchParams], which replaces it). *)
Record Component : Type := {
  state : ViewState;
  searchParams : SearchParams.t
}.

Definition setSelectedCategories (cats : list string) (st : ViewState) : ViewState :=
  {| searchTerm := searchTerm st;
     selectedLanguage := selectedLanguage st;
     selectedCategories := cats;
     sortOrder := sortOrder st |}.

(** The [params] object built in the handler. *)
Definition buildParams (updatedCategories : list string) (language : string) : SearchParams.t :=
  {| SearchParams.categories :=
       if 0 <? Z.of_nat (List.length updatedCategories)
       then Some (join "," updatedCategories) else None;
     SearchParams.language := if truthy language then Some language else None |}.

Definition handleCategoryClick (category : string) (c : Component) : Component :=
  let prev := selectedCategories (state c) in
  let language := selectedLanguage (state c) in
  let updatedCategories :=
    if Array_includes prev category
    then filter (fun c => negb (c =? category)%string) prev
    else (prev ++ [category])%list in
  {| state := setSelectedCategories updatedCategories (state c);
     searchParams := buildParams updatedCategories language |}.

(** [s.split(sep)] for a separator of one character. *)
Fixpoint split (sep : ascii) (s : string) : list string :=
  match s with
  | EmptyString => [EmptyString]
  | String c s' =>
      if Ascii.eqb c sep then EmptyString :: split sep s'
      else match split sep s' with
           | h :: t => String c h :: t
           | [] => [String c EmptyString]
           end
  end.

Definition setSelectedLanguage (language : string) (st : ViewState) : ViewState :=
  {| searchTerm := searchTerm st;
     selectedLanguage := language;
     selectedCategories := selectedCategories st;
     sortOrder := sortOrder st |}.

Definition handleLanguageChange (language : string) (c : Component) : Component :=
  let categories := join "," (selectedCategories (state c)) in
  {| state := setSelectedLanguage language (state c);
     searchParams :=
       {| SearchParams.categories := if truthy categories then Some categories else None;
          SearchParams.language := if truthy language then Some language else None |} |}.

(** The two effects on [searchParams]: a parameter that is present and not
    empty seeds the state; an absent one leaves the state alone. *)
Definition categoriesEffect (c : Component) : Component :=
  match SearchParams.categories (searchParams c) with
  | Some urlCategories =>
      if truthy urlCategories
      then {| state := setSelectedCategories (split "," urlCategories) (state c);
              searchParams := searchParams c |}
      else c
  | None => c
  end.

Definition languageEffect (c : Component) : Component :=
  match SearchParams.language (searchParams c) with
  | Some urlLanguage =>
      if truthy urlLanguage
      then {| state := setSelectedLanguage urlLanguage (state c);
              searchParams := searchParams c |}
      else c
  | None => c
  end.

Definition urlEffects (c : Component) : Component := languageEffect (categoriesEffect c).

(** ** Recycle bin: the permanent-delete-all dialog *)

(** What the handlers do to the outside, in order. *)
Inductive Effect : Type :=
| AddToast (message kind : string)
| SetModalOpen (b : bool)
| PermanentDeleteAll (arg : list Snippet).

Record Dialog : Type := {
  isPermanentDeleteAllModalOpen : bool;
  effects : list Effect
}.

Definition emit (e : Effect) (d : Dialog) : Dialog :=
  {| isPermanentDeleteAllModalOpen :=
       match e with
       | SetModalOpen b => b
       | _ => isPermanentDeleteAllModalOpen d
       end;
     effects := (effects d ++ [e])%list |}.

Definition openPermanentDeleteAllModal (p : Props) (d : Dialog) : Dialog :=
  if Z.of_nat (List.length (snippets p)) =? 0
  then emit (AddToast "No snippets in the recycle bin to clear." "info") d
  else emit (SetModalOpen true) d.

Definition closePermanentDeleteAllModal (d : Dialog) : Dialog :=
  emit (SetModalOpen false) d.

Definition handlePermanentDeleteAllConfirm (p : Props) (d : Dialog) : Dialog :=
  let d := closePermanentDeleteAllModal d in
  if onPermanentDeleteAll p then emit (PermanentDeleteAll (snippets p)) d else d.

(** The clicks that reach these handlers. *)
Inductive Click : Type := ClearAll | Confirm | Cancel.

(** Modelled from the spec: [ConfirmationModal] is missing; the bulk action
    is gated behind a confirmation step, so the dialog passes a click on to
    [onConfirm] or [onClose] only while [isOpen] holds.  The "Clear all"
    button is the one rendered in the recycle view. *)
Definition click (p : Props) (c : Click) (d : Dialog) : Dialog :=
  match c with
  | ClearAll => openPermanentDeleteAllModal p d
  | Confirm =>
      if isPermanentDeleteAllModalOpen d then handlePermanentDeleteAllConfirm p d else d
  | Cancel =>
      if isPermanentDeleteAllModalOpen d then closePermanentDeleteAllModal d else d
  end.

Definition initialDialog : Dialog :=
  {| isPermanentDeleteAllModalOpen := false; effects := [] |}.

Definition clicks (p : Props) (cs : list Click) : Dialog :=
  fold_left (fun d c => click p c d) cs initialDialog.

(** The calls of [onPermanentDeleteAll] in a trace, and how often the
    dialog was opened. *)
Definition deleteCalls (es : list Effect) : list (list Snippet) :=
  flat_map (fun e => match e with PermanentDeleteAll a => [a] | _ => [] end) es.

Definition openings (es : list Effect) : nat :=
  List.length (filter (fun e => match e with SetModalOpen true => true | _ => false end) es).

(** ** [SettingsModal]: the import loop of [handleImportFile] *)

Module Settings.
Record ImportProgress : Type := {
  total : Z;
  current : Z;
  succeeded : Z;
  failed : Z;
  errors : list (string * string)   (* title, error *)
}.

(** A snippet of the import file: [Omit<Snippet, "id" | "updated_at">]. *)
Record Item : Type := {
  title : string;
  description : string;
  fragments : list Fragment;
  categories : list string
}.

(** What a rejected promise carries: an [Error] with its message, or any
    other value. *)
Inductive Thrown : Type := ErrorObject (message : string) | OtherValue.

Inductive Outcome : Type := Resolved | Rejected (error : Thrown).

Record Loop (World : Type) : Type := {
  progress : ImportProgress;
  world : World;
  attempted : list Item;              (* the calls of [addSnippet], in order *)
  published : list ImportProgress     (* the calls of [setImportProgress] *)
}.
Arguments progress {World}.
Arguments world {World}.
Arguments attempted {World}.
Arguments published {World}.

Section Loop.
Context {World : Type}.
(** [addSnippet(snippet, false)]: a call on the backend, which resolves
    or rejects and may change the world. *)
Variable addSnippet : Item -> bool -> World -> Outcome * World.

Definition errorMessage (e : Thrown) : string :=
  match e with
  | ErrorObject m => m
  | OtherValue => "Unknown error"
  end.

(** One turn of [for (const snippet of importData.snippets)]. *)
Definition importOne (l : Loop World) (snippet : Item) : Loop World :=
  let pr := progress l in
  let '(outcome, w) := addSnippet snippet false (world l) in
  let pr :=
    match outcome with
    | Resolved =>
        {| total := total pr; current := current pr;
           succeeded := succeeded pr + 1; failed := failed pr;
           errors := errors pr |}
    | Rejected error =>
        {| total := total pr; current := current pr;
           succeeded := succeeded pr; failed := failed pr + 1;
           errors := (errors pr ++ [(title snippet, errorMessage error)])%list |}
    end in
  let pr :=
    {| total := total pr; current := current pr + 1;
       succeeded := succeeded pr; failed := failed pr; errors := errors pr |} in
  {| progress := pr; world := w;
     attempted := (attempted l ++ [snippet])%list;
     published := (published l ++ [pr])%list |}.

(** The progress record as created, and the loop over the file. *)
Definition importStart (items : list Item) (w : World) : Loop World :=
  let pr := {| total := Z.of_nat (List.length items); current := 0;
               succeeded := 0; failed := 0; errors := [] |} in
  {| progress := pr; world := w; attempted := []; published := [pr] |}.

Definition importLoop (items : list Item) (w : World) : Loop World :=
  fold_left importOne items (importStart items w).
End Loop.
End Settings.

(** ** [SettingsModal]: validation, the import handler, the Markdown export *)

(** A value as [JSON.parse] returns it.  A number is kept as its literal:
    the code never reads one. *)
#[local] Set Warnings "-register-all".
Inductive JSON : Type :=
| JNull
| JBool (b : bool)
| JNumber (literal : string)
| JString (s : string)
| JArray (a : list JSON)
| JObject (o : list (string * JSON)).

(** A computation that returns or throws. *)
Inductive Result (A : Type) : Type :=
| Ok (a : A)
| Throw (e : Settings.Thrown).
Arguments Ok {A}.
Arguments Throw {A}.

(** The own property [key] of a parsed object; of two members with one
    name [JSON.parse] keeps the later. *)
Fixpoint getProp (key : string) (o : list (string * JSON)) : option JSON :=
  match o with
  | [] => None
  | (k, v) :: o' =>
      match getProp key o' with
      | Some v' => Some v'
      | None => if (k =? key)%string then Some v else None
      end
  end.

(** [typeof v] and [Array.isArray(v)], [None] standing for [undefined]. *)
Definition typeof (v : option JSON) : string :=
  match v with
  | None => "undefined"
  | Some (JBool _) => "boolean"
  | Some (JNumber _) => "number"
  | Some (JString _) => "string"
  | Some JNull | Some (JArray _) | Some (JObject _) => "object"
  end.

Definition isArray (v : option JSON) : bool :=
  match v with
  | Some (JArray _) => true
  | _ => false
  end.

Section Validation.
(** The message of the [TypeError] raised by reading the property [key] of
    [null]; its text is the engine's. *)
Variable nullPropertyMessage : string -> string.

(** [v.key] for the keys the validation reads ([version], [snippets],
    [title], [fragments], [categories]): an own property of an object,
    [undefined] on an array, a string, a number or a boolean, a
    [TypeError] on [null]. *)
Definition member (v : JSON) (key : string) : Result (option JSON) :=
  match v with
  | JNull => Throw (Settings.ErrorObject (nullPropertyMessage key))
  | JObject o => Ok (getProp key o)
  | _ => Ok None
  end.

(** [!data || typeof data !== "object"]: [null] is falsy, and each of the
    other falsy values ([false], [0], the empty string) is no object. *)
Definition notAnObject (data : JSON) : bool :=
  match data with
  | JNull => true
  | _ => negb (typeof (Some data) =? "object")%string
  end.

(** The callback of [data.snippets.every]; [&&] reads its right operand
    only when the left one holds. *)
Definition validSnippet (snippet : JSON) : Result bool :=
  if negb (typeof (Some snippet) =? "object")%string then Ok false
  else
    match member snippet "title" with
    | Throw e => Throw e
    | Ok title =>
        if negb (typeof title =? "string")%string then Ok false
        else
          match member snippet "fragments" with
          | Throw e => Throw e
          | Ok fragments =>
              if negb (isArray fragments) then Ok false
              else
                match member snippet "categories" with
                | Throw e => Throw e
                | Ok categories => Ok (isArray categories)
                end
          end
    end.

(** [a.every(f)]: stops at the first element that fails or throws. *)
Fixpoint every (f : JSON -> Result bool) (a : list JSON) : Result bool :=
  match a with
  | [] => Ok true
  | x :: a' =>
      match f x with
      | Throw e => Throw e
      | Ok false => Ok false
      | Ok true => every f a'
      end
  end.

Definition validateImportData (data : JSON) : Result bool :=
  if notAnObject data then Ok false
  else
    match member data "version" with
    | Throw e => Throw e
    | Ok version =>
        if negb (typeof version =? "string")%string then Ok false
        else
          match member data "snippets" with
          | Throw e => Throw e
          | Ok (Some (JArray snippets)) => every validSnippet snippets
          | Ok _ => Ok false
          end
    end.
End Validation.

(** What the validation accepts, spelled out. *)
Definition wellFormedSnippet (snippet : JSON) : Prop :=
  exists o t fs cs,
    snippet = JObject o
    /\ getProp "title" o = Some (JString t)
    /\ getProp "fragments" o = Some (JArray fs)
    /\ getProp "categories" o = Some (JArray cs).

Definition wellFormedImport (data : JSON) : Prop :=
  exists o v snippets,
    data = JObject o
    /\ getProp "version" o = Some (JString v)
    /\ getProp "snippets" o = Some (JArray snippets)
    /\ Forall wellFormedSnippet snippets.

(** A number as a template literal prints it. *)
Definition showZ (z : Z) : string := NilZero.string_of_int (Z.to_int z).

(** What reading the chosen file, parsing it and validating it comes to:
    [file.text()], [JSON.parse] or the validation throws; the validation
    says no; or the data are an [ImportData] with these snippets. *)
Inductive FileContent : Type :=
| Unreadable (e : Settings.Thrown)
| Invalid
| Valid (items : list Settings.Item).

(** The state [handleImportFile] writes: two [useState] cells, the value
    of the file input, the toasts raised, the calls of [reloadSnippets],
    and the backend behind [addSnippet]. *)
Record ImportUI (World : Type) : Type := {
  importing : bool;
  importProgress : option Settings.ImportProgress;
  fileInputValue : string;
  importToasts : list (string * string);   (* message, kind *)
  reloads : nat;
  backend : World
}.
Arguments importing {World}.
Arguments importProgress {World}.
Arguments fileInputValue {World}.
Arguments importToasts {World}.
Arguments reloads {World}.
Arguments backend {World}.

Section ImportHandler.
Context {World : Type}.
Variable addSnippet : Settings.Item -> bool -> World -> Settings.Outcome * World.

Definition addImportToast (message kind : string) (u : ImportUI World) : ImportUI World :=
  {| importing := importing u; importProgress := importProgress u;
     fileInputValue := fileInputValue u;
     importToasts := (importToasts u ++ [(message, kind)])%list;
     reloads := reloads u; backend := backend u |}.

Definition resetImportState (u : ImportUI World) : ImportUI World :=
  {| importing := false; importProgress := None; fileInputValue := "";
     importToasts := importToasts u; reloads := reloads u; backend := backend u |}.

(** The [try] block after [setImporting(true)], up to the point where it
    ends or throws; the state carries what was done before a throw. *)
Definition importTry (content : FileContent) (u : ImportUI World)
  : ImportUI World * option Settings.Thrown :=
  let u := {| importing := true; importProgress := importProgress u;
              fileInputValue := fileInputValue u; importToasts := importToasts u;
              reloads := reloads u; backend := backend u |} in
  match content with
  | Unreadable e => (u, Some e)
  | Invalid => (u, Some (Settings.ErrorObject "Invalid import file format"))
  | Valid items =>
      let r := Settings.importLoop addSnippet items (backend u) in
      let progress := Settings.progress r in
      let u := {| importing := true; importProgress := Some progress;
                  fileInputValue := fileInputValue u; importToasts := importToasts u;
                  reloads := reloads u; backend := Settings.world r |} in
      if Settings.failed progress =? 0
      then
        let u := addImportToast
                   ("Successfully imported " ++ showZ (Settings.succeeded progress)
                    ++ " snippets") "success" u in
        ({| importing := importing u; importProgress := importProgress u;
            fileInputValue := fileInputValue u; importToasts := importToasts u;
            reloads := S (reloads u); backend := backend u |}, None)
      else
        (addImportToast
           ("Imported " ++ showZ (Settings.succeeded progress) ++ " snippets, "
            ++ showZ (Settings.failed progress) ++ " failed. Check console for details.")
           "warning" u, None)
  end.

(** [handleImportFile]: nothing without a file; otherwise [try], [catch]
    with its error toast, and [finally]. *)
Definition handleImportFile (file : option FileContent) (u : ImportUI World)
  : ImportUI World :=
  match file with
  | None => u
  | Some content =>
      let '(u, thrown) := importTry content u in
      let u :=
        match thrown with
        | Some (Settings.ErrorObject message) => addImportToast message "error" u
        | Some Settings.OtherValue => addImportToast "Failed to import snippets" "error" u
        | None => u
        end in
      resetImportState u
  end.
End ImportHandler.

(** What the loop makes of a valid file. *)
Definition importOutcome {World : Type}
    (addSnippet : Settings.Item -> bool -> World -> Settings.Outcome * World)
    (items : list Settings.Item) (w : World) : Settings.ImportProgress :=
  Settings.progress (Settings.importLoop addSnippet items w).

(** The backend after [addSnippet] was called on each snippet in turn. *)
Definition backendAfter {World : Type}
    (addSnippet : Settings.Item -> bool -> World -> Settings.Outcome * World)
    (items : list Settings.Item) (w : World) : World :=
  fold_left (fun w x => snd (addSnippet x false w)) items w.

(** The calls of [addSnippet] over a file, each with its outcome, the
    backend passing from one call to the next. *)
Fixpoint attempts {World : Type}
    (addSnippet : Settings.Item -> bool -> World -> Settings.Outcome * World)
    (items : list Settings.Item) (w : World) : list (Settings.Item * Settings.Outcome) :=
  match items with
  | [] => []
  | x :: rest =>
      let '(o, w') := addSnippet x false w in (x, o) :: attempts addSnippet rest w'
  end.

(** The error entry of a call, if it was rejected. *)
Definition errorEntry (a : Settings.Item * Settings.Outcome) : list (string * string) :=
  match snd a with
  | Settings.Rejected e => [(Settings.title (fst a), Settings.errorMessage e)]
  | Settings.Resolved => []
  end.

Definition resolved (a : Settings.Item * Settings.Outcome) : bool :=
  match snd a with
  | Settings.Resolved => true
  | Settings.Rejected _ => false
  end.

(** The line feed, the Markdown bullet as the file has it, and the fence. *)
Definition newline : string := String (ascii_of_nat 10) EmptyString.

Definition bulletPrefix : string := "â€¢ ".

Definition fence : string := "```".

(** [x || ""] on a string is [x]. *)
Definition orEmpty (x : string) : string := if truthy x then x else "".

(** The four lines pushed for a fragment. *)
Definition fragmentLines (fragment : Fragment) : list string :=
  [fence ++ orEmpty (language fragment); orEmpty (code fragment); fence; ""].

(** The array [lines] of [snippetToMarkdown] when it is joined. *)
Definition markdownLines (snippet : Snippet) : list string :=
  ((if truthy (title snippet) then [("# " ++ title snippet)%string; ""] else [])
   ++ (if truthy (description snippet) then [description snippet; ""] else [])
   ++ (if negb (Z.of_nat (List.length (categories snippet)) =? 0)
       then map (fun tag => (bulletPrefix ++ tag)%string) (categories snippet) ++ [""]
       else [])
   ++ flat_map fragmentLines (fragments snippet))%list.

Definition snippetToMarkdown (snippet : Snippet) : string :=
  join newline (markdownLines snippet).

(** A character of the class [[\w-]]. *)
Definition isWordOrHyphen (c : ascii) : bool :=
  let n := nat_of_ascii c in
  ((48 <=? n) && (n <=? 57) || (65 <=? n) && (n <=? 90) || (97 <=? n) && (n <=? 122)
   || (n =? 95) || (n =? 45))%nat.

(** [s.replace(/[^\w-]/g, "_")]. *)
Fixpoint replaceUnsafe (s : string) : string :=
  match s with
  | EmptyString => EmptyString
  | String c s' => String (if isWordOrHyphen c then c else "_"%char) (replaceUnsafe s')
  end.

(** The name of the file of a snippet in the Markdown archive. *)
Definition markdownFileName (snippet : Snippet) : string :=
  replaceUnsafe (if truthy (title snippet) then title snippet else "snippet") ++ ".md".

(** The characters of a string. *)
Fixpoint chars (s : string) : list ascii :=
  match s with
  | EmptyString => []
  | String c s' => c :: chars s'
  end.

(** ** Reading the results: the vocabulary of the properties *)

(** [sub] occurs in [s]. *)
Definition Substring (sub s : string) : Prop :=
  exists pre post : string, s = (pre ++ sub ++ post)%string.

(** Under the comparator [c], [x] sorts no later than [y]. *)
Definition sortsBefore {A : Type} (c : A -> A -> number) (x y : A) : Prop :=
  SortCompare c x y <= 0.

(** Larger keys first; the elements with key [k]. *)
Definition keyDesc {A : Type} (key : A -> Z) (a b : A) : Prop := key b <= key a.

Definition hasKey {A : Type} (key : A -> Z) (k : Z) (a : A) : bool := key a =? k.

(** Strings in the order of their UTF-16 code units, none before one that
    sorts before it. *)
Definition inCodeUnitOrder (l : list string) : Prop :=
  StronglySorted (fun a b => compareUnits (utf16 a) (utf16 b) <> Gt) l.

(** ASCII words in alphabetical order: letter by letter, the case of a
    letter ignored. *)
Definition alphabetical (l : list string) : Prop :=
  StronglySorted (fun a b => String.compare (asciiLower a) (asciiLower b) <> Gt) l.

Definition pinnedOnly (l : list Snippet) : list Snippet :=
  filter (fun s => is_pinned s =? 1) l.

Definition unpinnedOnly (l : list Snippet) : list Snippet :=
  filter (fun s => is_pinned s =? 0) l.

(** The comparator of the pinned snippets alone. *)
Definition byRecency {P : Platform} (a b : Snippet) : number := minus (time b) (time a).

(** [a] was updated no earlier than [b]; strictly later than [b]. *)
Definition notOlder {P : Platform} (a b : Snippet) : Prop :=
  exists ta tb, time a = Num ta /\ time b = Num tb /\ tb <= ta.

Definition strictlyNewer {P : Platform} (a b : Snippet) : Prop :=
  exists ta tb, time a = Num ta /\ time b = Num tb /\ tb < ta.

(** The labels of all fragments of all snippets, in reading order. *)
Definition labels {P : Platform} (l : list Snippet) : list string :=
  flat_map (fun s => map (fun f => getLanguageLabel (language f)) (fragments s)) l.

(** [setSortOrder], and the [useState] initial values with a chosen sort
    order. *)
Definition setSortOrder (so : SortOrder) (st : ViewState) : ViewState :=
  {| searchTerm := searchTerm st;
     selectedLanguage := selectedLanguage st;
     selectedCategories := selectedCategories st;
     sortOrder := so |}.

Definition defaultState (so : SortOrder) : ViewState :=
  {| searchTerm := ""; selectedLanguage := ""; selectedCategories := []; sortOrder := so |}.

(** [l] with every occurrence of [category] removed. *)
Definition without (category : string) (l : list string) : list string :=
  filter (fun c => negb (c =? category)%string) l.

(** Every call of the callback in the trace [es] passes [arg], and when it
    is made the dialog has been opened more often than the callback has
    been called. *)
Definition confirmedCalls (arg : list Snippet) (es : list Effect) : Prop :=
  forall pre a post, es = (pre ++ PermanentDeleteAll a :: post)%list ->
    a = arg /\ (List.length (deleteCalls pre) < openings pre)%nat.

Definition dialogInvariant (p : Props) (d : Dialog) : Prop :=
  confirmedCalls (snippets p) (effects d)
  /\ (List.length (deleteCalls (effects d))
      + (if isPermanentDeleteAllModalOpen d then 1 else 0)
      <= openings (effects d))%nat.

(** The query string is the one the handlers write for the state. *)
Definition inStep (c : Component) : Prop :=
  searchParams c
  = buildParams (selectedCategories (state c)) (selectedLanguage (state c)).

(** No comma in [s]. *)
Definition commaFree (s : string) : Prop := includes s "," = false.

(** The props with one field replaced. *)
Definition withSnippets (l : list Snippet) (p : Props) : Props :=
  {| snippets := l; includeCodeInSearch := includeCodeInSearch p;
     showFavorites := showFavorites p; onPermanentDeleteAll := onPermanentDeleteAll p |}.

Definition withIncludeCode (b : bool) (p : Props) : Props :=
  {| snippets := snippets p; includeCodeInSearch := b;
     showFavorites := showFavorites p; onPermanentDeleteAll := onPermanentDeleteAll p |}.

Definition setSearchTerm (term : string) (st : ViewState) : ViewState :=
  {| searchTerm := term;
     selectedLanguage := selectedLanguage st;
     selectedCategories := selectedCategories st;
     sortOrder := sortOrder st |}.

(** [a] was updated no later than [b]. *)
Definition notNewer {P : Platform} (a b : Snippet) : Prop :=
  exists ta tb, time a = Num ta /\ time b = Num tb /\ ta <= tb.

(** The timestamp of [s] parses. *)
Definition dated {P : Platform} (s : Snippet) : Prop := exists t, time s = Num t.

(** The order of the output, in words: a snippet with the larger pin flag
    first; of two pinned snippets ([is_pinned = 1]) the one updated later;
    of two others with one flag the one the sort order puts first. *)
Definition inOrder {P : Platform} (so : SortOrder) (a b : Snippet) : Prop :=
  is_pinned b < is_pinned a
  \/ (is_pinned a = is_pinned b
      /\ if is_pinned a =? 1 then notOlder a b
         else match so with
              | newest => notOlder a b
              | oldest => notNewer a b
              | alpha_asc => localeCompare (title a) (title b) <= 0
              | alpha_desc => localeCompare (title a) (title b) >= 0
              end).

(** ** A concrete platform and sample data

    ASCII lower-casing, comparison by code unit as the collation, the
    date-only parser as [Date], and a two-entry language table: the
    functions of [samplePlatform] below, which shows that the laws of
    [Platform] can be kept and runs the examples. *)

Definition byteCompare (a b : string) : Z :=
  match String.compare a b with
  | Lt => -1
  | Eq => 0
  | Gt => 1
  end.

Definition isoTime (s : string) : number :=
  match isoDate s with
  | Some ms => Num ms
  | None => NaN
  end.

Definition sampleLabel (l : string) : string :=
  if (l =? "python")%string then "Python"
  else if (l =? "typescript")%string then "TypeScript"
  else l.

Definition pyFragment : Fragment :=
  {| file_name := "main.py"; language := "python"; code := "print(1)" |}.

(** The three snippets of the spec's example. *)
Definition S1 : Snippet :=
  {| id := "1"; title := "Alpha"; description := ""; fragments := [pyFragment];
     categories := ["a"; "b"]; is_pinned := 1; is_favorite := 1;
     updated_at := "2024-01-01" |}.

Definition S2 : Snippet :=
  {| id := "2"; title := "Beta"; description := ""; fragments := [pyFragment];
     categories := []; is_pinned := 0; is_favorite := 0;
     updated_at := "2024-03-01" |}.

Definition S3 : Snippet :=
  {| id := "3"; title := "Gamma"; description := ""; fragments := [pyFragment];
     categories := []; is_pinned := 1; is_favorite := 0;
     updated_at := "2024-02-01" |}.

(** A second pinned snippet updated on the day of [S1]. *)
Definition S4 : Snippet :=
  {| id := "4"; title := "Delta"; description := ""; fragments := [pyFragment];
     categories := []; is_pinned := 1; is_favorite := 0;
     updated_at := "2024-01-01" |}.

(** An unpinned snippet updated after [S2]. *)
Definition S5 : Snippet :=
  {| id := "5"; title := "Epsilon"; description := ""; fragments := [pyFragment];
     categories := []; is_pinned := 0; is_favorite := 0;
     updated_at := "2024-04-01" |}.

(** A snippet tagged apple, Zebra and banana. *)
Definition S6 : Snippet :=
  {| id := "7"; title := "Zeta"; description := ""; fragments := [pyFragment];
     categories := ["apple"; "Zebra"; "banana"]; is_pinned := 0; is_favorite := 0;
     updated_at := "2024-05-01" |}.

(** U+E000 and U+10000 as UTF-8. *)
Definition privateUse : string :=
  String (ascii_of_nat 238) (String (ascii_of_nat 128) (String (ascii_of_nat 128) "")).

Definition linearB : string :=
  String (ascii_of_nat 240)
    (String (ascii_of_nat 144) (String (ascii_of_nat 128) (String (ascii_of_nat 128) ""))).

Definition propsOf (l : list Snippet) : Props :=
  {| snippets := l; includeCodeInSearch := false; showFavorites := false;
     onPermanentDeleteAll := true |}.

(** The view state with "Alpha" in the search box. *)
Definition alphaSearch : ViewState :=
  {| searchTerm := "Alpha"; selectedLanguage := ""; selectedCategories := [];
     sortOrder := newest |}.

(** A backend that rejects the snippet titled "bad" and counts its calls. *)
Definition flakyBackend (item : Settings.Item) (toast : bool) (calls : nat)
  : Settings.Outcome * nat :=
  (if (Settings.title item =? "bad")%string
   then Settings.Rejected (Settings.ErrorObject "boom")
   else Settings.Resolved,
   S calls).

Definition itemTitled (t : string) : Settings.Item :=
  {| Settings.title := t; Settings.description := "";
     Settings.fragments := [pyFragment]; Settings.categories := [] |}.

(** * Facts about the built-ins *)

Example isoDate_epoch : isoDate "1970-01-01" = Some 0.
Proof. reflexivity. Qed.

Example isoDate_2024 : isoDate "2024-03-01" = Some 1709251200000.
Proof. reflexivity. Qed.

Example includes_ex : includes "python" "py" = true /\ includes "python" "yp" = false.
Proof. split; reflexivity. Qed.

Lemma string_compare_refl (a : string) : String.compare a a = Eq.
Proof.
  induction a as [|c a IH]; simpl; auto.
  unfold Ascii.compare. now rewrite N.compare_refl.
Qed.

Lemma string_compare_trans_le (a b c : string) :
  String.compare a b <> Gt -> String.compare b c <> Gt -> String.compare a c <> Gt.
Proof.
  revert b c.
  induction a as [|x a IH]; intros [|y b] [|z c]; simpl; try congruence.
  unfold Ascii.compare.
  destruct (N.compare_spec (N_of_ascii x) (N_of_ascii y));
    destruct (N.compare_spec (N_of_ascii y) (N_of_ascii z));
    destruct (N.compare_spec (N_of_ascii x) (N_of_ascii z));
    try congruence; try lia; eauto.
Qed.

Lemma byteCompare_antisym (a b : string) :
  Z.sgn (byteCompare b a) = - Z.sgn (byteCompare a b).
Proof.
  unfold byteCompare. rewrite (String.compare_antisym b a).
  destruct (String.compare a b); reflexivity.
Qed.

Lemma byteCompare_trans (a b c : string) :
  byteCompare a b <= 0 -> byteCompare b c <= 0 -> byteCompare a c <= 0.
Proof.
  unfold byteCompare. intros Hab Hbc.
  assert (Hac : String.compare a c <> Gt).
  { apply (string_compare_trans_le a b c).
    - destruct (String.compare a b); [congruence | congruence | lia].
    - destruct (String.compare b c); [congruence | congruence | lia]. }
  destruct (String.compare a c); [lia | lia | congruence].
Qed.

Lemma isoTime_iso (s : string) (ms : Z) : isoDate s = Some ms -> isoTime s = Num ms.
Proof. unfold isoTime. now intros ->. Qed.

#[export] Instance samplePlatform : Platform := {|
  toLowerCase := asciiLower;
  localeCompare := byteCompare;
  Date_getTime := isoTime;
  getLanguageLabel := sampleLabel;
  toLowerCase_ascii := fun s _ => eq_refl;
  localeCompare_antisym := byteCompare_antisym;
  localeCompare_trans := byteCompare_trans;
  Date_getTime_iso := isoTime_iso
|}.

Lemma prefix_spec (a b : string) :
  String.prefix a b = true <-> exists post, b = (a ++ post)%string.
Proof.
  revert b. induction a as [|x a IH]; intros b; simpl.
  - split; [intros _; now exists b | intros _; now destruct b].
  - destruct b as [|y b]; simpl.
    + split; [discriminate | intros [post H]; discriminate].
    + destruct (ascii_dec x y) as [->|Hne].
      * rewrite IH. split; intros [post H]; exists post; congruence.
      * split; [discriminate | intros [post H]; congruence].
Qed.

Lemma includes_spec (s sub : string) : includes s sub = true <-> Substring sub s.
Proof.
  unfold Substring. induction s as [|c s IH].
  - cbn [includes]. rewrite orb_false_r, prefix_spec. split.
    + intros [post H]. now exists EmptyString, post.
    + intros [[|x pre] [post H]]; simpl in H; [now exists post | discriminate].
  - cbn [includes]. rewrite orb_true_iff, IH, prefix_spec. split.
    + intros [[post H] | [pre [post H]]].
      * now exists EmptyString, post.
      * exists (String c pre), post. simpl. now rewrite H.
    + intros [[|x pre] [post H]]; simpl in H.
      * left. now exists post.
      * right. exists pre, post. congruence.
Qed.

Lemma includes_empty (s : string) : includes s "" = true.
Proof. destruct s; reflexivity. Qed.

Lemma Array_includes_In (a : list string) (x : string) :
  Array_includes a x = true <-> In x a.
Proof.
  unfold Array_includes. rewrite existsb_exists. split.
  - intros [y [Hy He]]. apply String.eqb_eq in He. now subst.
  - intros H. exists x. split; [assumption | apply String.eqb_refl].
Qed.

(** * Facts about [Array_sort] *)

Section SortFacts.
Context {A : Type}.
Variable c : A -> A -> number.

Lemma insert_perm (x : A) (l : list A) : Permutation (insert c x l) (x :: l).
Proof.
  induction l as [|y l IH]; simpl; [reflexivity|].
  destruct (SortCompare c x y <=? 0); [reflexivity|].
  rewrite IH. apply perm_swap.
Qed.

Lemma Array_sort_perm (l : list A) : Permutation (Array_sort c l) l.
Proof.
  induction l as [|x l IH]; simpl; [constructor|].
  rewrite insert_perm. now constructor.
Qed.

Lemma insert_In (x y : A) (l : list A) : In y (insert c x l) <-> y = x \/ In y l.
Proof.
  split; intros H.
  - apply (Permutation_in _ (insert_perm x l)) in H. simpl in H. intuition.
  - apply (Permutation_in _ (Permutation_sym (insert_perm x l))). simpl. intuition.
Qed.

Lemma Array_sort_In (y : A) (l : list A) : In y (Array_sort c l) <-> In y l.
Proof.
  split; apply Permutation_in;
    [apply Array_sort_perm | apply Permutation_sym, Array_sort_perm].
Qed.

  (** On a set [Q] of elements where the comparator is consistent, the
    result is ordered. *)
Section Consistent.
Variable Q : A -> Prop.
Hypothesis total : forall x y, Q x -> Q y ->
  0 < SortCompare c x y -> SortCompare c y x <= 0.
Hypothesis trans : forall x y z, Q x -> Q y -> Q z ->
  SortCompare c x y <= 0 -> SortCompare c y z <= 0 -> SortCompare c x z <= 0.

Lemma insert_sorted (x : A) (l : list A) :
  Q x -> Forall Q l ->
  StronglySorted (sortsBefore c) l -> StronglySorted (sortsBefore c) (insert c x l).
Proof.
  intros Qx. induction l as [|y l IH]; intros QL S; simpl.
  - repeat constructor.
  - inversion QL as [|? ? Qy Ql]; subst.
    inversion S as [|? ? Sl Fy]; subst.
    destruct (SortCompare c x y <=? 0) eqn:E.
    + apply Z.leb_le in E. constructor; [assumption|].
      constructor; [exact E|].
      rewrite Forall_forall in *. intros z Hz.
      apply (trans x y z); auto. now apply Fy.
    + apply Z.leb_gt in E. constructor; [now apply IH|].
      rewrite Forall_forall in *. intros z Hz.
      apply (proj1 (insert_In _ _ _)) in Hz. destruct Hz as [->|Hz]; [|now apply Fy].
      now apply total.
Qed.

Lemma Array_sort_sorted (l : list A) :
  Forall Q l -> StronglySorted (sortsBefore c) (Array_sort c l).
Proof.
  induction l as [|x l IH]; intros QL; simpl; [constructor|].
  inversion QL as [|? ? Qx Ql]; subst.
  apply insert_sorted; [exact Qx| |now apply IH].
  rewrite Forall_forall in *. intros z Hz. apply (proj1 (Array_sort_In _ _)) in Hz. auto.
Qed.
End Consistent.

(** A comparator that first orders by a key, larger keys first, keeps
    each key class together and sorts it as if it were alone. *)
Section Keyed.
Variable key : A -> Z.
Hypothesis key_gt : forall x y, key y < key x -> SortCompare c x y <= 0.
Hypothesis key_lt : forall x y, key x < key y -> 0 < SortCompare c x y.

Lemma insert_keyDesc (x : A) (l : list A) :
  StronglySorted (keyDesc key) l -> StronglySorted (keyDesc key) (insert c x l).
Proof.
  induction l as [|y l IH]; intros S; simpl.
  - repeat constructor.
  - inversion S as [|? ? Sl Fy]; subst.
    destruct (SortCompare c x y <=? 0) eqn:E.
    + apply Z.leb_le in E.
      assert (Hxy : key y <= key x).
      { destruct (Z.lt_ge_cases (key x) (key y)) as [H|H]; [|exact H].
        apply key_lt in H. lia. }
      constructor; [assumption|]. constructor; [exact Hxy|].
      rewrite Forall_forall in *. intros z Hz.
      specialize (Fy z Hz). unfold keyDesc in *. lia.
    + apply Z.leb_gt in E.
      assert (Hxy : key x <= key y).
      { destruct (Z.lt_ge_cases (key y) (key x)) as [H|H]; [|exact H].
        apply key_gt in H. lia. }
      constructor; [now apply IH|].
      rewrite Forall_forall in *. intros z Hz.
      apply (proj1 (insert_In _ _ _)) in Hz. destruct Hz as [->|Hz]; [exact Hxy | now apply Fy].
Qed.

Lemma Array_sort_keyDesc (l : list A) : StronglySorted (keyDesc key) (Array_sort c l).
Proof.
  induction l as [|x l IH]; simpl; [constructor | now apply insert_keyDesc].
Qed.

Lemma filter_below (k : Z) (l : list A) :
  Forall (fun z => key z < k) l -> filter (hasKey key k) l = [].
Proof.
  induction l as [|z l IH]; intros F; simpl; [reflexivity|].
  inversion F; subst. unfold hasKey at 1.
  destruct (Z.eqb_spec (key z) k); [lia | now apply IH].
Qed.

Lemma filter_insert (k : Z) (x : A) (l : list A) :
  StronglySorted (keyDesc key) l ->
  filter (hasKey key k) (insert c x l)
  = if hasKey key k x then insert c x (filter (hasKey key k) l) else filter (hasKey key k) l.
Proof.
  induction l as [|y l IH]; intros S.
  - simpl. destruct (hasKey key k x); reflexivity.
  - inversion S as [|? ? Sl Fy]; subst. specialize (IH Sl).
    cbn [insert]. destruct (SortCompare c x y <=? 0) eqn:E.
    + cbn [filter]. destruct (hasKey key k x) eqn:Kx; [|reflexivity].
      destruct (hasKey key k y) eqn:Ky.
      * cbn [insert]. now rewrite E.
      * apply Z.leb_le in E. unfold hasKey in Kx, Ky.
        apply Z.eqb_eq in Kx. apply Z.eqb_neq in Ky.
        assert (Hyx : key y < key x).
        { destruct (Z.lt_ge_cases (key x) (key y)) as [H|H]; [|lia].
          apply key_lt in H. lia. }
        rewrite filter_below; [reflexivity|].
        rewrite Forall_forall in *. intros z Hz.
        specialize (Fy z Hz). unfold keyDesc in Fy. lia.
    + cbn [filter]. rewrite IH.
      destruct (hasKey key k y) eqn:Ky; destruct (hasKey key k x) eqn:Kx; try reflexivity.
      cbn [insert]. now rewrite E.
Qed.

Lemma filter_Array_sort (k : Z) (l : list A) :
  filter (hasKey key k) (Array_sort c l) = Array_sort c (filter (hasKey key k) l).
Proof.
  induction l as [|x l IH]; [reflexivity|].
  cbn [Array_sort filter].
  rewrite filter_insert by apply Array_sort_keyDesc.
  rewrite IH. destruct (hasKey key k x); reflexivity.
Qed.
End Keyed.
End SortFacts.

Lemma insert_before {A : Type} (c : A -> A -> number) (x y : A) (l : list A) :
  SortCompare c x y <= 0 -> insert c x (y :: l) = x :: y :: l.
Proof. intros H. simpl. apply Z.leb_le in H. now rewrite H. Qed.

Lemma insert_after {A : Type} (c : A -> A -> number) (x y : A) (l : list A) :
  0 < SortCompare c x y -> insert c x (y :: l) = y :: insert c x l.
Proof. intros H. simpl. apply Z.leb_gt in H. now rewrite H. Qed.

Lemma insert_ext {A : Type} (c c' : A -> A -> number) (x : A) (l : list A) :
  (forall y, In y l -> SortCompare c x y = SortCompare c' x y) ->
  insert c x l = insert c' x l.
Proof.
  induction l as [|y l IH]; intros H; simpl; [reflexivity|].
  rewrite (H y) by now left.
  rewrite IH by (intros z Hz; apply H; now right). reflexivity.
Qed.

Lemma Array_sort_ext {A : Type} (c c' : A -> A -> number) (l : list A) :
  (forall x y, In x l -> In y l -> SortCompare c x y = SortCompare c' x y) ->
  Array_sort c l = Array_sort c' l.
Proof.
  induction l as [|x l IH]; intros H; simpl; [reflexivity|].
  rewrite IH by (intros; apply H; now right).
  apply insert_ext. intros y Hy. apply (proj1 (Array_sort_In _ _ _)) in Hy.
  apply H; [now left | now right].
Qed.

Lemma StronglySorted_nth {A : Type} (R : A -> A -> Prop) (l : list A) :
  StronglySorted R l ->
  forall i j a b, (i < j)%nat ->
    nth_error l i = Some a -> nth_error l j = Some b -> R a b.
Proof.
  induction 1 as [|x l S IH F]; intros i j a b Hij Hi Hj.
  - destruct i; discriminate.
  - destruct j as [|j]; [lia|]. simpl in Hj. destruct i as [|i].
    + simpl in Hi. injection Hi as <-.
      rewrite Forall_forall in F. apply F. eapply nth_error_In; eauto.
    + simpl in Hi. apply (IH i j); auto. lia.
Qed.

Lemma StronglySorted_weaken {A : Type} (R R' : A -> A -> Prop) (Q : A -> Prop) (l : list A) :
  (forall a b, Q a -> Q b -> R a b -> R' a b) ->
  Forall Q l -> StronglySorted R l -> StronglySorted R' l.
Proof.
  intros HR. induction l as [|x l IH]; intros QL S; [constructor|].
  inversion QL as [|? ? Qx Ql]; subst. inversion S as [|? ? Sl Fx]; subst.
  constructor; [now apply IH|].
  rewrite Forall_forall in *. intros z Hz. apply HR; auto.
Qed.

Lemma Forall_filter_true {A : Type} (f : A -> bool) (l : list A) :
  Forall (fun a => f a = true) (filter f l).
Proof. rewrite Forall_forall. intros a Ha. now apply filter_In in Ha. Qed.

(** * Facts about the pipeline *)

Section PipelineFacts.
Context {P : Platform}.

Lemma localeCompare_gt_lt (a b : string) : 0 < localeCompare a b -> localeCompare b a < 0.
Proof. pose proof (localeCompare_antisym a b). lia. Qed.

Lemma localeCompare_le_ge (a b : string) : localeCompare b a <= 0 -> localeCompare a b >= 0.
Proof. pose proof (localeCompare_antisym a b). lia. Qed.

Lemma localeCompare_ge_le (a b : string) : localeCompare a b >= 0 -> localeCompare b a <= 0.
Proof. pose proof (localeCompare_antisym a b). lia. Qed.

Lemma compare_key_gt (so : SortOrder) (x y : Snippet) :
  is_pinned y < is_pinned x -> SortCompare (compareSnippets so) x y <= 0.
Proof.
  intros H. unfold SortCompare, compareSnippets.
  destruct (Z.eqb_spec (is_pinned x) (is_pinned y)); simpl; lia.
Qed.

Lemma compare_key_lt (so : SortOrder) (x y : Snippet) :
  is_pinned x < is_pinned y -> 0 < SortCompare (compareSnippets so) x y.
Proof.
  intros H. unfold SortCompare, compareSnippets.
  destruct (Z.eqb_spec (is_pinned x) (is_pinned y)); simpl; lia.
Qed.

Lemma compare_pinned (so : SortOrder) (x y : Snippet) :
  is_pinned x = 1 -> is_pinned y = 1 -> compareSnippets so x y = byRecency x y.
Proof. intros Hx Hy. unfold compareSnippets. now rewrite Hx, Hy. Qed.

Lemma compare_unpinned (so : SortOrder) (x y : Snippet) :
  is_pinned x = 0 -> is_pinned y = 0 ->
  compareSnippets so x y
  = match so with
    | newest => minus (time y) (time x)
    | oldest => minus (time x) (time y)
    | alpha_asc => Num (localeCompare (title x) (title y))
    | alpha_desc => Num (localeCompare (title y) (title x))
    end.
Proof. intros Hx Hy. unfold compareSnippets. now rewrite Hx, Hy. Qed.

Lemma filteredSnippets_keyDesc (p : Props) (st : ViewState) :
  StronglySorted (keyDesc is_pinned) (filteredSnippets p st).
Proof.
  apply Array_sort_keyDesc; [apply compare_key_gt | apply compare_key_lt].
Qed.

(** Each pin class of the output is the sort of that class of the
    filtered input. *)
Lemma class_of_filteredSnippets (k : Z) (p : Props) (st : ViewState) :
  filter (fun s => is_pinned s =? k) (filteredSnippets p st)
  = Array_sort (compareSnippets (sortOrder st))
      (filter (fun s => is_pinned s =? k) (filter (keep p st) (snippets p))).
Proof.
  apply (filter_Array_sort (compareSnippets (sortOrder st)) is_pinned
           (compare_key_gt _) (compare_key_lt _) k).
Qed.

Lemma pinnedOnly_filteredSnippets (p : Props) (st : ViewState) :
  pinnedOnly (filteredSnippets p st)
  = Array_sort byRecency (pinnedOnly (filter (keep p st) (snippets p))).
Proof.
  unfold pinnedOnly. rewrite class_of_filteredSnippets.
  apply Array_sort_ext. intros x y Hx Hy.
  apply filter_In in Hx, Hy. destruct Hx as [_ Hx], Hy as [_ Hy].
  apply Z.eqb_eq in Hx, Hy. unfold SortCompare. now rewrite compare_pinned.
Qed.

Lemma keep_setSortOrder (p : Props) (so : SortOrder) (st : ViewState) (s : Snippet) :
  keep p (setSortOrder so st) s = keep p st s.
Proof. reflexivity. Qed.
End PipelineFacts.

(** * The claims *)

(** C1. In the output of the pipeline every pinned snippet
    ([is_pinned = 1]) stands before every unpinned one ([is_pinned = 0]),
    whatever the input collection, the filters and the sort order. *)
Theorem pinned_before_unpinned {P : Platform} (p : Props) (st : ViewState)
    (i j : nat) (a b : Snippet) :
  nth_error (filteredSnippets p st) i = Some a ->
  nth_error (filteredSnippets p st) j = Some b ->
  is_pinned a = 1 -> is_pinned b = 0 ->
  (i < j)%nat.
Proof.
  intros Hi Hj Ha Hb.
  pose proof (filteredSnippets_keyDesc p st) as S.
  destruct (Nat.lt_trichotomy i j) as [H|[H|H]]; [exact H| |].
  - subst j. rewrite Hi in Hj. injection Hj as <-. lia.
  - pose proof (StronglySorted_nth _ _ S j i b a H Hj Hi) as K.
    unfold keyDesc in K. lia.
Qed.

(** On [samplePlatform]: the unpinned [S2] is given first and comes out last. *)
Lemma pinned_before_unpinned_witness :
  nth_error (filteredSnippets (propsOf [S2; S1]) (defaultState oldest)) 0 = Some S1
  /\ nth_error (filteredSnippets (propsOf [S2; S1]) (defaultState oldest)) 1 = Some S2
  /\ (0 < 1)%nat.
Proof.
  assert (H0 : nth_error (filteredSnippets (propsOf [S2; S1]) (defaultState oldest)) 0
               = Some S1) by reflexivity.
  assert (H1 : nth_error (filteredSnippets (propsOf [S2; S1]) (defaultState oldest)) 1
               = Some S2) by reflexivity.
  split; [exact H0|]. split; [exact H1|].
  exact (pinned_before_unpinned (propsOf [S2; S1]) (defaultState oldest) 0 1 S1 S2
           H0 H1 eq_refl eq_refl).
Defined.

(** C2, as stated, fails (on [samplePlatform]): two pinned snippets updated
    at the same instant are both in the output, so the pinned part is not
    strictly descending. *)
Lemma pinned_ties_not_strict :
  pinnedOnly (filteredSnippets (propsOf [S1; S4]) (defaultState newest)) = [S1; S4]
  /\ ~ StronglySorted strictlyNewer
         (pinnedOnly (filteredSnippets (propsOf [S1; S4]) (defaultState newest))).
Proof.
  assert (E : pinnedOnly (filteredSnippets (propsOf [S1; S4]) (defaultState newest))
              = [S1; S4]) by reflexivity.
  split; [exact E|]. rewrite E. intros S.
  inversion S as [|? ? _ F]; subst. inversion F as [|? ? K _]; subst.
  destruct K as [ta [tb [Ha [Hb Hlt]]]].
  vm_compute in Ha, Hb. injection Ha as <-. injection Hb as <-. lia.
Qed.

(** C2, amended.  When the timestamps of the pinned snippets parse, the
    pinned snippets of the output stand most recently updated first (equal
    timestamps allowed): they are the stable sort by recency of the pinned
    snippets that pass the filter; and the pinned part of the output is the
    same for every sort order. *)
Theorem pinned_by_recency {P : Platform} (p : Props) (st : ViewState) :
  (Forall (fun s => is_pinned s = 1 -> exists t, time s = Num t) (snippets p) ->
   StronglySorted notOlder (pinnedOnly (filteredSnippets p st)))
  /\ pinnedOnly (filteredSnippets p st)
     = Array_sort byRecency (pinnedOnly (filter (keep p st) (snippets p)))
  /\ forall so, pinnedOnly (filteredSnippets p (setSortOrder so st))
                = pinnedOnly (filteredSnippets p st).
Proof.
  split; [|split].
  - intros V. rewrite pinnedOnly_filteredSnippets.
    set (L := pinnedOnly (filter (keep p st) (snippets p))).
    assert (QL : Forall (fun s => exists t, time s = Num t) L).
    { rewrite Forall_forall in *. intros s Hs. unfold L, pinnedOnly in Hs.
      apply filter_In in Hs. destruct Hs as [Hs Hp]. apply filter_In in Hs.
      apply V; [tauto | now apply Z.eqb_eq]. }
    apply (StronglySorted_weaken (sortsBefore byRecency) notOlder
             (fun s => exists t, time s = Num t)).
    + intros a b [ta Ha] [tb Hb] R. exists ta, tb.
      unfold sortsBefore, SortCompare, byRecency in R. rewrite Ha, Hb in R.
      simpl in R. repeat split; auto. lia.
    + rewrite Forall_forall in *. intros s Hs.
      apply (proj1 (Array_sort_In _ _ _)) in Hs. auto.
    + apply (Array_sort_sorted byRecency (fun s => exists t, time s = Num t)); auto.
      * intros x y [tx Hx] [ty Hy]. unfold SortCompare, byRecency.
        rewrite Hx, Hy. simpl. lia.
      * intros x y z [tx Hx] [ty Hy] [tz Hz]. unfold SortCompare, byRecency.
        rewrite Hx, Hy, Hz. simpl. lia.
  - apply pinnedOnly_filteredSnippets.
  - intros so. rewrite !pinnedOnly_filteredSnippets. reflexivity.
Qed.

(** On [samplePlatform]: of the pinned [S1] and [S3], [S3] is the later one. *)
Lemma pinned_by_recency_witness :
  pinnedOnly (filteredSnippets (propsOf [S1; S2; S3]) (defaultState alpha_asc)) = [S3; S1]
  /\ StronglySorted notOlder
       (pinnedOnly (filteredSnippets (propsOf [S1; S2; S3]) (defaultState alpha_asc))).
Proof.
  split; [reflexivity|].
  apply (proj1 (pinned_by_recency (propsOf [S1; S2; S3]) (defaultState alpha_asc))).
  repeat constructor; intros _; eexists; vm_compute; reflexivity.
Defined.

Section DefaultFilters.
Context {P : Platform}.

Lemma toLowerCase_empty : toLowerCase "" = "".
Proof. now rewrite toLowerCase_ascii. Qed.

(** With nothing typed, nothing selected and favourites off the callback
    of [filter] keeps every snippet. *)
Lemma keep_default (p : Props) (so : SortOrder) (s : Snippet) :
  showFavorites p = false -> keep p (defaultState so) s = true.
Proof.
  intros F. unfold keep. rewrite F. cbn [andb searchTerm defaultState].
  rewrite toLowerCase_empty. unfold basicMatch.
  now rewrite includes_empty.
Qed.

Lemma filter_keep_default (p : Props) (so : SortOrder) :
  showFavorites p = false -> filter (keep p (defaultState so)) (snippets p) = snippets p.
Proof.
  intros F. induction (snippets p) as [|s l IH]; simpl; [reflexivity|].
  rewrite keep_default by assumption. now rewrite IH.
Qed.
End DefaultFilters.

(** C3, as stated, fails on its example (on [samplePlatform]): [S3] was
    updated after [S1] and both are pinned, so [S3] comes first. *)
Lemma example_order_refuted :
  filteredSnippets (propsOf [S1; S2; S3]) (defaultState alpha_asc) <> [S1; S3; S2].
Proof. vm_compute. discriminate. Qed.

(** C3, amended.  Under [alpha-asc] the titles of the unpinned snippets of
    the output never decrease under [localeCompare], under [alpha-desc]
    they never increase; and on every platform the snippets [S1] (Alpha,
    pinned, 2024-01-01), [S2] (Beta, unpinned, 2024-03-01), [S3] (Gamma,
    pinned, 2024-02-01) come out under [alpha-asc] as [S3; S1; S2]. *)
Theorem unpinned_by_title {P : Platform} :
  (forall (p : Props) (st : ViewState),
      match sortOrder st with
      | alpha_asc =>
          StronglySorted (fun a b => localeCompare (title a) (title b) <= 0)
            (unpinnedOnly (filteredSnippets p st))
      | alpha_desc =>
          StronglySorted (fun a b => localeCompare (title a) (title b) >= 0)
            (unpinnedOnly (filteredSnippets p st))
      | _ => True
      end)
  /\ filteredSnippets (propsOf [S1; S2; S3]) (defaultState alpha_asc) = [S3; S1; S2].
Proof.
  split.
  - intros p st. unfold unpinnedOnly. rewrite class_of_filteredSnippets.
    set (L := filter (fun s => is_pinned s =? 0) (filter (keep p st) (snippets p))).
    assert (QL : Forall (fun s => is_pinned s = 0) L).
    { rewrite Forall_forall. intros s Hs. apply filter_In in Hs. now apply Z.eqb_eq. }
    assert (QS : forall so, Forall (fun s => is_pinned s = 0) (Array_sort (compareSnippets so) L)).
    { intros so. rewrite Forall_forall in *. intros s Hs.
      apply (proj1 (Array_sort_In _ _ _)) in Hs. auto. }
    destruct (sortOrder st); [exact I | exact I | |].
    + apply (StronglySorted_weaken (sortsBefore (compareSnippets alpha_asc)) _
               (fun s => is_pinned s = 0)); [|apply QS|].
      * intros a b Ha Hb R. unfold sortsBefore, SortCompare in R.
        now rewrite compare_unpinned in R.
      * apply (Array_sort_sorted _ (fun s => is_pinned s = 0)); [| |exact QL].
        -- intros x y Hx Hy. unfold SortCompare. rewrite !compare_unpinned by assumption.
           intros H. apply localeCompare_gt_lt in H. lia.
        -- intros x y z Hx Hy Hz. unfold SortCompare.
           rewrite !compare_unpinned by assumption. apply localeCompare_trans.
    + apply (StronglySorted_weaken (sortsBefore (compareSnippets alpha_desc)) _
               (fun s => is_pinned s = 0)); [|apply QS|].
      * intros a b Ha Hb R. unfold sortsBefore, SortCompare in R.
        rewrite compare_unpinned in R by assumption.
        now apply localeCompare_le_ge.
      * apply (Array_sort_sorted _ (fun s => is_pinned s = 0)); [| |exact QL].
        -- intros x y Hx Hy. unfold SortCompare. rewrite !compare_unpinned by assumption.
           intros H. apply localeCompare_gt_lt in H. lia.
        -- intros x y z Hx Hy Hz. unfold SortCompare.
           rewrite !compare_unpinned by assumption. intros H1 H2.
           now apply (localeCompare_trans _ (title y)).
  - unfold filteredSnippets. rewrite filter_keep_default by reflexivity.
    assert (T1 : time S1 = Num 1704067200000) by (apply Date_getTime_iso; reflexivity).
    assert (T3 : time S3 = Num 1706745600000) by (apply Date_getTime_iso; reflexivity).
    cbn [snippets propsOf Array_sort sortOrder defaultState].
    change (insert (compareSnippets alpha_asc) S3 []) with [S3].
    rewrite (insert_after _ S2 S3) by (unfold SortCompare, compareSnippets; simpl; lia).
    change (insert (compareSnippets alpha_asc) S2 []) with [S2].
    rewrite (insert_after _ S1 S3)
      by (unfold SortCompare, compareSnippets; rewrite T1, T3; simpl; lia).
    rewrite (insert_before _ S1 S2) by (unfold SortCompare, compareSnippets; simpl; lia).
    reflexivity.
Qed.

(** C5. A snippet passes the category filter exactly when every selected
    category is among its categories; so it fails as soon as one is
    missing ([S1], tagged a and b, fails a filter on a and c), and with no
    category selected every snippet passes. *)
Theorem category_filter_conjunctive :
  (forall (sel : list string) (s : Snippet),
      categoryMatch sel s = true <-> forall cat, In cat sel -> In cat (categories s))
  /\ (forall (sel : list string) (s : Snippet) (cat : string),
         In cat sel -> ~ In cat (categories s) -> categoryMatch sel s = false)
  /\ (categories S1 = ["a"; "b"] /\ categoryMatch ["a"; "c"] S1 = false)
  /\ (forall s : Snippet, categoryMatch [] s = true).
Proof.
  assert (M : forall (sel : list string) (s : Snippet),
             categoryMatch sel s = true <-> forall cat, In cat sel -> In cat (categories s)).
  { intros sel s. unfold categoryMatch. rewrite orb_true_iff, forallb_forall. split.
    - intros [E | H] cat Hc.
      + apply Z.eqb_eq in E. destruct sel; [destruct Hc | simpl in E; lia].
      + apply Array_includes_In. now apply H.
    - intros H. right. intros cat Hc. apply Array_includes_In. now apply H. }
  split; [exact M|]. split; [|split].
  - intros sel s cat Hc Hn. destruct (categoryMatch sel s) eqn:E; [|reflexivity].
    exfalso. apply Hn. exact (proj1 (M sel s) E cat Hc).
  - split; reflexivity.
  - reflexivity.
Qed.



(** ** The category toggle *)

Lemma without_notin (category : string) (l : list string) :
  ~ In category l -> without category l = l.
Proof.
  induction l as [|x l IH]; intros H; simpl; [reflexivity|].
  destruct (String.eqb_spec x category) as [->|Hne]; simpl.
  - exfalso. apply H. now left.
  - rewrite IH; [reflexivity|]. intros K. apply H. now right.
Qed.

Lemma without_In (category x : string) (l : list string) :
  In x (without category l) <-> In x l /\ x <> category.
Proof.
  unfold without. rewrite filter_In, negb_true_iff, String.eqb_neq. tauto.
Qed.

Lemma handleCategoryClick_selected (category : string) (c : Component) :
  selectedCategories (state (handleCategoryClick category c))
  = if Array_includes (selectedCategories (state c)) category
    then without category (selectedCategories (state c))
    else (selectedCategories (state c) ++ [category])%list.
Proof. reflexivity. Qed.

Lemma handleCategoryClick_params (category : string) (c : Component) :
  searchParams (handleCategoryClick category c)
  = buildParams (selectedCategories (state (handleCategoryClick category c)))
      (selectedLanguage (state c)).
Proof. reflexivity. Qed.

Lemma Component_ext (c c' : Component) :
  searchTerm (state c) = searchTerm (state c') ->
  selectedLanguage (state c) = selectedLanguage (state c') ->
  selectedCategories (state c) = selectedCategories (state c') ->
  sortOrder (state c) = sortOrder (state c') ->
  searchParams c = searchParams c' ->
  c = c'.
Proof.
  destruct c as [[? ? ? ?] ?], c' as [[? ? ? ?] ?]. simpl.
  intros; subst; reflexivity.
Qed.

(** The selection after two clicks on [category]. *)
Lemma toggled_twice (category : string) (c : Component) :
  selectedCategories (state (handleCategoryClick category (handleCategoryClick category c)))
  = if Array_includes (selectedCategories (state c)) category
    then (without category (selectedCategories (state c)) ++ [category])%list
    else selectedCategories (state c).
Proof.
  rewrite handleCategoryClick_selected, handleCategoryClick_selected.
  destruct (Array_includes (selectedCategories (state c)) category) eqn:E.
  - assert (N : Array_includes (without category (selectedCategories (state c))) category
                = false).
    { destruct (Array_includes (without category _) category) eqn:K; [|reflexivity].
      apply Array_includes_In, without_In in K. now destruct K. }
    now rewrite N.
  - assert (Y : Array_includes (selectedCategories (state c) ++ [category]) category = true).
    { apply Array_includes_In, in_or_app. right. now left. }
    rewrite Y. unfold without. rewrite filter_app. simpl.
    rewrite String.eqb_refl. simpl. rewrite app_nil_r.
    apply without_notin. intros K. apply Array_includes_In in K. congruence.
Qed.




(** A query string out of step with the state: a is selected and the
    address has no parameter (the state stays so, for the effects leave a
    selection alone when the parameter is absent).  Two clicks on b leave a
    selected, and the parameter, absent before, now reads a. *)
Example toggle_twice_out_of_step :
  let c := {| state := setSelectedCategories ["a"] (defaultState newest);
              searchParams := buildParams [] "" |} in
  let c2 := handleCategoryClick "b" (handleCategoryClick "b" c) in
  urlEffects c = c
  /\ ~ inStep c
  /\ selectedCategories (state c2) = ["a"]
  /\ SearchParams.categories (searchParams c) = None
  /\ SearchParams.categories (searchParams c2) = Some "a".
Proof. cbv zeta. repeat split. unfold inStep. vm_compute. discriminate. Qed.

(** ** The facets *)

Lemma Set_add_In (s : list string) (x y : string) :
  In y (Set_add s x) <-> In y s \/ y = x.
Proof.
  unfold Set_add. destruct (Array_includes s x) eqn:E.
  - apply Array_includes_In in E. split; [tauto | intros [H | ->]; assumption].
  - rewrite in_app_iff. simpl. intuition congruence.
Qed.

Lemma Set_add_NoDup (s : list string) (x : string) : NoDup s -> NoDup (Set_add s x).
Proof.
  intros N. unfold Set_add. destruct (Array_includes s x) eqn:E; [exact N|].
  apply NoDup_app; [exact N | repeat constructor; intros [] |].
  intros a Ha [<-|[]]. apply Array_includes_In in Ha. congruence.
Qed.

Lemma fold_Set_add_In (a s : list string) (y : string) :
  In y (fold_left Set_add a s) <-> In y s \/ In y a.
Proof.
  revert s. induction a as [|x a IH]; intros s; simpl; [tauto|].
  rewrite IH, Set_add_In. intuition congruence.
Qed.

Lemma fold_Set_add_NoDup (a s : list string) : NoDup s -> NoDup (fold_left Set_add a s).
Proof.
  revert s. induction a as [|x a IH]; intros s N; simpl; [exact N|].
  now apply IH, Set_add_NoDup.
Qed.

Lemma compareUnits_antisym (a b : list N) :
  compareUnits b a = CompOpp (compareUnits a b).
Proof.
  revert b. induction a as [|x a IH]; intros [|y b]; simpl; try reflexivity.
  rewrite (N.compare_antisym x y). destruct (x ?= y)%N; simpl; auto.
Qed.

Lemma compareUnits_trans_le (a b c : list N) :
  compareUnits a b <> Gt -> compareUnits b c <> Gt -> compareUnits a c <> Gt.
Proof.
  revert b c.
  induction a as [|x a IH]; intros [|y b] [|z c]; simpl; try congruence.
  destruct (N.compare_spec x y); destruct (N.compare_spec y z);
    destruct (N.compare_spec x z); try congruence; try lia; eauto.
Qed.

(** On ASCII strings the code units are the bytes, and the order is that
    of the character codes. *)
Lemma utf16_ascii (s : string) :
  isAscii s = true -> utf16 s = map N_of_ascii (chars s).
Proof.
  induction s as [|c s IH]; simpl; [reflexivity|].
  intros H. apply andb_true_iff in H. destruct H as [Hc Hs].
  assert (L : (N_of_ascii c <? 128)%N = true).
  { apply N.ltb_lt. apply Nat.ltb_lt in Hc. unfold nat_of_ascii in Hc. lia. }
  rewrite L. now rewrite IH.
Qed.

Lemma compareUnits_ascii (a b : string) :
  isAscii a = true -> isAscii b = true ->
  compareUnits (utf16 a) (utf16 b) = String.compare a b.
Proof.
  intros Ha Hb. rewrite (utf16_ascii a Ha), (utf16_ascii b Hb). clear Ha Hb.
  revert b. induction a as [|x a IH]; intros [|y b]; simpl; try reflexivity.
  unfold Ascii.compare. destruct (N_of_ascii x ?= N_of_ascii y)%N; auto.
Qed.

(** One, two, three and four bytes; a byte that is no UTF-8. *)
Example utf16_ex :
  utf16 "a€b" = [97%N; 8364%N; 98%N] /\ utf16 "é" = [233%N]
  /\ utf16 "😀" = [55357%N; 56832%N]
  /\ utf16 (String (ascii_of_nat 255) "a") = [65533%N; 97%N].
Proof. repeat split. Qed.

(** Between U+E000 and U+10000 the code units and the bytes disagree: the
    surrogate pair of U+10000 sorts first. *)
Example codeUnit_order_is_not_byte_order :
  utf16 privateUse = [57344%N] /\ utf16 linearB = [55296%N; 56320%N]
  /\ codeUnitCompare linearB privateUse = Num (-1)
  /\ String.compare linearB privateUse = Gt.
Proof. repeat split. Qed.

Lemma codeUnit_sorted (l : list string) :
  NoDup l ->
  NoDup (Array_sort codeUnitCompare l) /\ inCodeUnitOrder (Array_sort codeUnitCompare l).
Proof.
  intros N.
  assert (N' : NoDup (Array_sort codeUnitCompare l)).
  { eapply Permutation_NoDup; [apply Permutation_sym, Array_sort_perm | exact N]. }
  split; [exact N'|].
  assert (S : StronglySorted (sortsBefore codeUnitCompare) (Array_sort codeUnitCompare l)).
  { apply (Array_sort_sorted codeUnitCompare (fun _ => True)).
    - intros x y _ _. unfold SortCompare, codeUnitCompare.
      rewrite (compareUnits_antisym (utf16 x) (utf16 y)).
      destruct (compareUnits (utf16 x) (utf16 y)); simpl; lia.
    - intros x y z _ _ _. unfold SortCompare, codeUnitCompare. intros H1 H2.
      assert (K : compareUnits (utf16 x) (utf16 z) <> Gt).
      { apply (compareUnits_trans_le _ (utf16 y)).
        - destruct (compareUnits (utf16 x) (utf16 y)); [congruence | congruence | lia].
        - destruct (compareUnits (utf16 y) (utf16 z)); [congruence | congruence | lia]. }
      destruct (compareUnits (utf16 x) (utf16 z)); [lia | lia | congruence].
    - rewrite Forall_forall. auto. }
  unfold inCodeUnitOrder.
  apply (StronglySorted_weaken (sortsBefore codeUnitCompare) _ (fun _ => True));
    [|rewrite Forall_forall; auto|exact S].
  intros a b _ _. unfold sortsBefore, SortCompare, codeUnitCompare.
  destruct (compareUnits (utf16 a) (utf16 b)); [congruence | congruence | lia].
Qed.

Section Facets.
Context {P : Platform}.

Lemma languages_fold (l : list Snippet) :
  languages l = Array_sort codeUnitCompare (Set_of (labels l)).
Proof.
  unfold languages, Set_of. f_equal. generalize (@nil string) as acc.
  induction l as [|s l IH]; intros acc; simpl; [reflexivity|].
  rewrite fold_left_app, IH. f_equal.
  generalize acc. induction (fragments s) as [|f fs IHf]; intros acc'; simpl;
    [reflexivity | apply IHf].
Qed.

Lemma labels_In (l : list Snippet) (x : string) :
  In x (labels l)
  <-> exists s f, In s l /\ In f (fragments s) /\ x = getLanguageLabel (language f).
Proof.
  unfold labels. rewrite in_flat_map. split.
  - intros [s [Hs H]]. apply in_map_iff in H. destruct H as [f [E Hf]].
    exists s, f. auto.
  - intros [s [f [Hs [Hf E]]]]. exists s. split; [exact Hs|].
    apply in_map_iff. exists f. auto.
Qed.
End Facets.

(** C9, as stated, fails: [sort()] with no comparator orders by code
    unit, not alphabetically.  Of apple, Zebra and banana it puts Zebra
    first, a capital letter coming before every small one. *)
Lemma facets_not_alphabetical :
  allCategories [S6] = ["Zebra"; "apple"; "banana"]
  /\ ~ alphabetical (allCategories [S6]).
Proof.
  assert (E : allCategories [S6] = ["Zebra"; "apple"; "banana"]) by reflexivity.
  split; [exact E|]. rewrite E. intros S.
  inversion S as [|? ? _ F]; subst. inversion F as [|? ? K _]; subst.
  apply K. reflexivity.
Qed.

(** C9, amended.  [languages] lists the language labels of the fragments
    of the input snippets, each label (as [getLanguageLabel] gives it)
    once, in the order of [sort()] with no comparator: by UTF-16 code unit,
    which on ASCII strings is the order of the character codes, every
    capital letter before every small one.  [allCategories] lists the
    categories of the input snippets, each once, in the same order.  Both
    are functions of the input collection alone: the view state and the
    other props do not enter. *)
Theorem facets_of_input {P : Platform} (p : Props) (st : ViewState) :
  ((forall x, In x (view_languages (render p st))
              <-> exists s f, In s (snippets p) /\ In f (fragments s)
                              /\ x = getLanguageLabel (language f))
   /\ NoDup (view_languages (render p st))
   /\ inCodeUnitOrder (view_languages (render p st)))
  /\ ((forall x, In x (view_allCategories (render p st))
                 <-> exists s, In s (snippets p) /\ In x (categories s))
      /\ NoDup (view_allCategories (render p st))
      /\ inCodeUnitOrder (view_allCategories (render p st)))
  /\ (forall a b, isAscii a = true -> isAscii b = true ->
         (compareUnits (utf16 a) (utf16 b) <> Gt <-> String.leb a b = true))
  /\ (forall (st' : ViewState) (includeCode favorites callback : bool),
         let p' := {| snippets := snippets p; includeCodeInSearch := includeCode;
                      showFavorites := favorites; onPermanentDeleteAll := callback |} in
         view_languages (render p' st') = view_languages (render p st)
         /\ view_allCategories (render p' st') = view_allCategories (render p st)).
Proof.
  cbn [render view_languages view_allCategories].
  split; [|split; [|split]].
  - rewrite languages_fold.
    destruct (codeUnit_sorted (Set_of (labels (snippets p)))) as [N S].
    { apply fold_Set_add_NoDup. constructor. }
    split; [|split; assumption].
    intros x. rewrite Array_sort_In. unfold Set_of.
    rewrite fold_Set_add_In, labels_In. simpl. tauto.
  - unfold allCategories.
    destruct (codeUnit_sorted (Set_of (flat_map categories (snippets p)))) as [N S].
    { apply fold_Set_add_NoDup. constructor. }
    split; [|split; assumption].
    intros x. rewrite Array_sort_In. unfold Set_of.
    rewrite fold_Set_add_In, in_flat_map. simpl. tauto.
  - intros a b Ha Hb. rewrite (compareUnits_ascii a b Ha Hb). unfold String.leb.
    destruct (String.compare a b); split; congruence.
  - intros st' inc fav cb. split; reflexivity.
Qed.

(** On [samplePlatform]: the three sample snippets are all in Python. *)
Lemma facets_of_input_witness :
  view_languages (render (propsOf [S1; S2; S3]) (defaultState newest)) = ["Python"]
  /\ (compareUnits (utf16 "Zebra") (utf16 "apple") <> Gt <-> String.leb "Zebra" "apple" = true).
Proof.
  split; [reflexivity|].
  exact (proj1 (proj2 (proj2 (facets_of_input (propsOf [S1; S2; S3]) (defaultState newest))))
           "Zebra" "apple" eq_refl eq_refl).
Defined.

(** ** The recycle bin *)

Lemma snoc_split {A : Type} (es pre post : list A) (e x : A) :
  (es ++ [e] = pre ++ x :: post)%list ->
  (post = [] /\ es = pre /\ e = x)
  \/ exists post', post = (post' ++ [e])%list /\ es = (pre ++ x :: post')%list.
Proof.
  induction post as [|z post' _] using rev_ind.
  - intros H. apply app_inj_tail in H. left. tauto.
  - intros H. right. exists post'.
    change (pre ++ x :: post' ++ [z])%list with (pre ++ (x :: post') ++ [z])%list in H.
    rewrite app_assoc in H. apply app_inj_tail in H. destruct H as [-> ->]. auto.
Qed.

Lemma deleteCalls_snoc (es : list Effect) (e : Effect) :
  deleteCalls (es ++ [e])
  = (deleteCalls es ++ match e with PermanentDeleteAll a => [a] | _ => [] end)%list.
Proof. unfold deleteCalls. rewrite flat_map_app. simpl. now rewrite app_nil_r. Qed.

Lemma openings_snoc (es : list Effect) (e : Effect) :
  openings (es ++ [e])
  = (openings es + match e with SetModalOpen true => 1 | _ => 0 end)%nat.
Proof.
  unfold openings. rewrite filter_app, length_app. f_equal.
  destruct e as [? ?|[|]|?]; reflexivity.
Qed.

Lemma confirmedCalls_snoc (arg : list Snippet) (es : list Effect) (e : Effect) :
  confirmedCalls arg es ->
  match e with
  | PermanentDeleteAll a => a = arg /\ (List.length (deleteCalls es) < openings es)%nat
  | _ => True
  end ->
  confirmedCalls arg (es ++ [e]).
Proof.
  intros C He pre a post H. apply snoc_split in H.
  destruct H as [[_ [-> ->]] | [post' [_ ->]]]; [exact He | now apply (C pre a post')].
Qed.

Lemma emit_other_invariant (p : Props) (d : Dialog) (e : Effect) :
  dialogInvariant p d ->
  match e with
  | AddToast _ _ => True
  | SetModalOpen true => isPermanentDeleteAllModalOpen d = false
  | SetModalOpen false => True
  | PermanentDeleteAll a =>
      a = snippets p
      /\ (List.length (deleteCalls (effects d)) < openings (effects d))%nat
      /\ isPermanentDeleteAllModalOpen d = false
  end ->
  dialogInvariant p (emit e d).
Proof.
  intros [C N] He. unfold dialogInvariant, emit. cbn [effects isPermanentDeleteAllModalOpen].
  rewrite deleteCalls_snoc, openings_snoc. split.
  - apply confirmedCalls_snoc; [exact C|]. destruct e; try exact I. tauto.
  - destruct e as [? ?|[|]|?]; cbn [List.length app]; rewrite ?length_app; simpl.
    + destruct (isPermanentDeleteAllModalOpen d); lia.
    + rewrite He in N. lia.
    + destruct (isPermanentDeleteAllModalOpen d); lia.
    + destruct He as [_ [L O]]. rewrite O. lia.
Qed.

Lemma click_invariant (p : Props) (c : Click) (d : Dialog) :
  dialogInvariant p d -> dialogInvariant p (click p c d).
Proof.
  intros Inv. destruct c; simpl.
  - unfold openPermanentDeleteAllModal.
    destruct (Z.of_nat (List.length (snippets p)) =? 0).
    + now apply emit_other_invariant.
    + destruct (isPermanentDeleteAllModalOpen d) eqn:O.
      * (* the dialog is already open: the state is set to [true] again *)
        destruct Inv as [C N]. unfold dialogInvariant, emit.
        cbn [effects isPermanentDeleteAllModalOpen].
        rewrite deleteCalls_snoc, openings_snoc, app_nil_r. split.
        -- now apply confirmedCalls_snoc.
        -- rewrite O in N. lia.
      * now apply emit_other_invariant.
  - destruct (isPermanentDeleteAllModalOpen d) eqn:O; [|exact Inv].
    unfold handlePermanentDeleteAllConfirm, closePermanentDeleteAllModal.
    assert (Inv' : dialogInvariant p (emit (SetModalOpen false) d))
      by now apply emit_other_invariant.
    destruct (onPermanentDeleteAll p); [|exact Inv'].
    apply emit_other_invariant; [exact Inv'|].
    split; [reflexivity|]. split; [|reflexivity].
    destruct Inv as [_ N]. rewrite O in N. unfold emit. cbn [effects].
    rewrite deleteCalls_snoc, openings_snoc, app_nil_r. lia.
  - destruct (isPermanentDeleteAllModalOpen d); [|exact Inv].
    now apply emit_other_invariant.
Qed.

Lemma clicks_invariant (p : Props) (cs : list Click) : dialogInvariant p (clicks p cs).
Proof.
  unfold clicks.
  assert (I0 : dialogInvariant p initialDialog).
  { split; [|simpl; lia]. intros [|? ?] a post H; discriminate. }
  revert I0. generalize initialDialog as d.
  induction cs as [|c cs IH]; intros d Inv; simpl; [exact Inv|].
  now apply IH, click_invariant.
Qed.

(** C4, as stated, fails: with "Alpha" in the search box only [S1] is
    visible, and the confirmed action hands both snippets of the bin to the
    callback. *)
Lemma delete_all_ignores_filter :
  filteredSnippets (propsOf [S1; S2]) alphaSearch = [S1]
  /\ deleteCalls (effects (clicks (propsOf [S1; S2]) [ClearAll; Confirm])) = [[S1; S2]]
  /\ deleteCalls (effects (clicks (propsOf [S1; S2]) [ClearAll; Confirm]))
     <> [filteredSnippets (propsOf [S1; S2]) alphaSearch].
Proof.
  split; [reflexivity|]. split; [reflexivity|]. vm_compute. discriminate.
Qed.

Lemma clicks_on_empty (p : Props) (cs : list Click) (d : Dialog) :
  snippets p = [] ->
  isPermanentDeleteAllModalOpen d = false ->
  let d' := fold_left (fun d c => click p c d) cs d in
  isPermanentDeleteAllModalOpen d' = false
  /\ openings (effects d') = openings (effects d)
  /\ deleteCalls (effects d') = deleteCalls (effects d).
Proof.
  intros E. revert d. induction cs as [|c cs IH]; intros d O; simpl; [auto|].
  assert (K : isPermanentDeleteAllModalOpen (click p c d) = false
              /\ openings (effects (click p c d)) = openings (effects d)
              /\ deleteCalls (effects (click p c d)) = deleteCalls (effects d)).
  { destruct c; simpl; rewrite ?O; auto.
    unfold openPermanentDeleteAllModal. rewrite E. simpl.
    rewrite deleteCalls_snoc, openings_snoc, app_nil_r. auto. }
  destruct K as [K1 [K2 K3]]. specialize (IH _ K1). simpl in IH.
  rewrite K2, K3 in IH. exact IH.
Qed.

(** C4, amended.  The confirmed action closes the dialog and then, if a
    callback was passed, calls it once with the whole input collection
    [snippets], whatever the filters show.  In every sequence of clicks each
    call of the callback passes [snippets] and comes after an opening of
    the dialog of its own.  When the input collection is empty "Clear all"
    only raises a toast: the dialog is never opened and the callback never
    called. *)
Theorem permanent_delete_all_gated (p : Props) :
  (forall d : Dialog,
      effects (handlePermanentDeleteAllConfirm p d)
      = (effects d ++ SetModalOpen false
           :: (if onPermanentDeleteAll p then [PermanentDeleteAll (snippets p)] else []))%list
      /\ isPermanentDeleteAllModalOpen (handlePermanentDeleteAllConfirm p d) = false)
  /\ (forall cs : list Click, confirmedCalls (snippets p) (effects (clicks p cs)))
  /\ (snippets p = [] ->
      (forall d : Dialog,
          openPermanentDeleteAllModal p d
          = emit (AddToast "No snippets in the recycle bin to clear." "info") d)
      /\ forall cs : list Click,
          openings (effects (clicks p cs)) = 0%nat
          /\ deleteCalls (effects (clicks p cs)) = []).
Proof.
  split; [|split].
  - intros d. unfold handlePermanentDeleteAllConfirm, closePermanentDeleteAllModal.
    destruct (onPermanentDeleteAll p); simpl; [|auto].
    now rewrite <- app_assoc.
  - intros cs. apply clicks_invariant.
  - intros E. split.
    + intros d. unfold openPermanentDeleteAllModal. now rewrite E.
    + intros cs. destruct (clicks_on_empty p cs initialDialog E eq_refl) as [_ [H1 H2]].
      exact (conj H1 H2).
Qed.

(** An empty bin: no click opens the dialog or reaches the callback. *)
Lemma permanent_delete_all_gated_witness :
  openings (effects (clicks (propsOf []) [ClearAll; Confirm; ClearAll])) = 0%nat
  /\ deleteCalls (effects (clicks (propsOf []) [ClearAll; Confirm; ClearAll])) = [].
Proof.
  exact (proj2 (proj2 (proj2 (permanent_delete_all_gated (propsOf []))) eq_refl)
           [ClearAll; Confirm; ClearAll]).
Defined.

(** ** The import loop *)

Section ImportFacts.
Import Settings.
Context {World : Type}.
Variable addSnippet : Item -> bool -> World -> Outcome * World.

(** What one turn of the loop does to the record. *)
Lemma importOne_step (l : Loop World) (snippet : Item) :
  let l' := importOne addSnippet l snippet in
  attempted l' = (attempted l ++ [snippet])%list
  /\ published l' = (published l ++ [progress l'])%list
  /\ total (progress l') = total (progress l)
  /\ current (progress l') = current (progress l) + 1
  /\ succeeded (progress l') + failed (progress l')
     = succeeded (progress l) + failed (progress l) + 1
  /\ Z.of_nat (List.length (errors (progress l'))) - failed (progress l')
     = Z.of_nat (List.length (errors (progress l))) - failed (progress l).
Proof.
  unfold importOne. destruct (addSnippet snippet false (world l)) as [[|e] w];
    cbn [attempted published progress total current succeeded failed errors];
    repeat split; try lia.
  rewrite length_app. simpl. lia.
Qed.

Lemma importFold (items : list Item) (l : Loop World) :
  let l' := fold_left (importOne addSnippet) items l in
  attempted l' = (attempted l ++ items)%list
  /\ total (progress l') = total (progress l)
  /\ current (progress l') = current (progress l) + Z.of_nat (List.length items)
  /\ succeeded (progress l') + failed (progress l')
     = succeeded (progress l) + failed (progress l) + Z.of_nat (List.length items)
  /\ Z.of_nat (List.length (errors (progress l'))) - failed (progress l')
     = Z.of_nat (List.length (errors (progress l))) - failed (progress l)
  /\ ((forall d, last (published l) d = progress l) ->
      forall d, last (published l') d = progress l').
Proof.
  revert l. induction items as [|x items IH]; intros l; cbn [fold_left].
  - cbv zeta. rewrite app_nil_r. simpl. repeat split; auto; lia.
  - specialize (IH (importOne addSnippet l x)). cbv zeta in IH.
    destruct IH as [A [T [C [S [E L]]]]].
    destruct (importOne_step l x) as [A1 [P1 [T1 [C1 [S1' E1]]]]].
    cbv zeta. rewrite A, A1, T, T1, C, C1, S, S1', E, E1.
    rewrite <- app_assoc. cbn [List.length app].
    repeat split; try lia.
    intros _. apply L. intros d. rewrite P1. apply last_last.
Qed.
End ImportFacts.

(** The second of three snippets fails; the third is still imported. *)
Example import_with_a_failure :
  let r := Settings.importLoop flakyBackend
             [itemTitled "one"; itemTitled "bad"; itemTitled "two"] 0%nat in
  Settings.progress r
  = {| Settings.total := 3; Settings.current := 3; Settings.succeeded := 2;
       Settings.failed := 1; Settings.errors := [("bad", "boom")] |}
  /\ Settings.world r = 3%nat.
Proof. split; reflexivity. Qed.

(** * Further properties of the pipeline *)

Section MorePipeline.
Context {P : Platform}.

Lemma categoryMatch_spec (sel : list string) (s : Snippet) :
  categoryMatch sel s = true <-> forall cat, In cat sel -> In cat (categories s).
Proof.
  unfold categoryMatch. rewrite orb_true_iff, forallb_forall. split.
  - intros [E | H] cat Hc.
    + apply Z.eqb_eq in E. destruct sel; [destruct Hc | simpl in E; lia].
    + apply Array_includes_In. now apply H.
  - intros H. right. intros cat Hc. apply Array_includes_In. now apply H.
Qed.

(** The callback of [filter], conjunct by conjunct. *)
Lemma keep_true_iff (p : Props) (st : ViewState) (s : Snippet) :
  keep p st s = true
  <-> (showFavorites p = true -> is_favorite s = 1)
      /\ (basicMatch (toLowerCase (searchTerm st)) s
          || fragmentMatch (includeCodeInSearch p) (toLowerCase (searchTerm st)) s) = true
      /\ languageMatch (selectedLanguage st) s = true
      /\ categoryMatch (selectedCategories st) s = true.
Proof.
  unfold keep. destruct (showFavorites p); cbn [andb].
  - destruct (Z.eqb_spec (is_favorite s) 1) as [E|E]; cbn [negb].
    + rewrite !andb_true_iff. tauto.
    + split; [discriminate | intros [H _]; exfalso; auto].
  - rewrite !andb_true_iff. split; [|tauto]. intros H. split; [discriminate | tauto].
Qed.

Lemma filteredSnippets_In (p : Props) (st : ViewState) (s : Snippet) :
  In s (filteredSnippets p st) <-> In s (snippets p) /\ keep p st s = true.
Proof. unfold filteredSnippets. now rewrite Array_sort_In, filter_In. Qed.
End MorePipeline.

(** X1. The output holds exactly the input snippets that pass the filter,
    each as often as the input holds it: sorting neither drops, repeats
    nor invents a snippet, so the output is never longer than the input. *)
Theorem output_is_filtered_input {P : Platform} (p : Props) (st : ViewState) :
  Permutation (filteredSnippets p st) (filter (keep p st) (snippets p))
  /\ (forall s, In s (filteredSnippets p st) <-> In s (snippets p) /\ keep p st s = true)
  /\ (List.length (filteredSnippets p st) <= List.length (snippets p))%nat.
Proof.
  split; [apply Array_sort_perm|]. split; [apply filteredSnippets_In|].
  unfold filteredSnippets.
  rewrite (Permutation_length (Array_sort_perm _ _)). apply filter_length_le.
Qed.

(** X2. With [showFavorites] on, every snippet of the output is a
    favourite ([is_favorite = 1]); an input snippet with any other flag is
    left out whatever the other filters say. *)
Theorem favorites_only {P : Platform} (p : Props) (st : ViewState) (s : Snippet) :
  showFavorites p = true ->
  (In s (filteredSnippets p st) -> is_favorite s = 1)
  /\ (is_favorite s <> 1 -> ~ In s (filteredSnippets p st)).
Proof.
  intros F.
  assert (K : In s (filteredSnippets p st) -> is_favorite s = 1).
  { intros H. apply filteredSnippets_In in H. destruct H as [_ H].
    apply keep_true_iff in H. now apply H. }
  split; [exact K | intros N H; exact (N (K H))].
Qed.

(** On [samplePlatform]: of [S1] and [S2] only [S1] is a favourite. *)
Lemma favorites_only_witness :
  is_favorite S1 = 1
  /\ ~ In S2 (filteredSnippets
               {| snippets := [S1; S2]; includeCodeInSearch := false;
                  showFavorites := true; onPermanentDeleteAll := false |}
               (defaultState newest)).
Proof.
  split; [reflexivity|].
  apply (proj2 (favorites_only
                  {| snippets := [S1; S2]; includeCodeInSearch := false;
                     showFavorites := true; onPermanentDeleteAll := false |}
                  (defaultState newest) S2 eq_refl)).
  discriminate.
Defined.

(** X3. With a language selected, every snippet of the output has a
    fragment whose label is the selected language up to case; a language
    that is the label of no fragment of the input empties the output. *)
Theorem language_filter {P : Platform} (p : Props) (st : ViewState) :
  selectedLanguage st <> "" ->
  (forall s, In s (filteredSnippets p st) ->
     exists f, In f (fragments s)
       /\ toLowerCase (getLanguageLabel (language f)) = toLowerCase (selectedLanguage st))
  /\ ((forall s f, In s (snippets p) -> In f (fragments s) ->
         toLowerCase (getLanguageLabel (language f)) <> toLowerCase (selectedLanguage st)) ->
      filteredSnippets p st = []).
Proof.
  intros N.
  assert (K : forall s, In s (filteredSnippets p st) ->
     In s (snippets p) /\ exists f, In f (fragments s)
       /\ toLowerCase (getLanguageLabel (language f)) = toLowerCase (selectedLanguage st)).
  { intros s H. apply filteredSnippets_In in H. destruct H as [Hs H]. split; [exact Hs|].
    apply keep_true_iff in H. destruct H as [_ [_ [L _]]].
    unfold languageMatch in L. apply orb_true_iff in L. destruct L as [L|L].
    - apply String.eqb_eq in L. contradiction.
    - apply existsb_exists in L. destruct L as [f [Hf E]].
      exists f. split; [exact Hf | now apply String.eqb_eq]. }
  split.
  - intros s H. now apply K.
  - intros U. destruct (filteredSnippets p st) as [|s l] eqn:E; [reflexivity|].
    exfalso. destruct (K s (or_introl eq_refl)) as [Hs [f [Hf Hl]]].
    exact (U s f Hs Hf Hl).
Qed.

(** On [samplePlatform]: no sample snippet is written in Rust. *)
Lemma language_filter_witness :
  filteredSnippets (propsOf [S1; S2; S3])
    {| searchTerm := ""; selectedLanguage := "Rust"; selectedCategories := [];
       sortOrder := newest |} = [].
Proof.
  apply (proj2 (language_filter (propsOf [S1; S2; S3])
                  {| searchTerm := ""; selectedLanguage := "Rust";
                     selectedCategories := []; sortOrder := newest |}
                  ltac:(discriminate))).
  intros s f [<-|[<-|[<-|[]]]] [<-|[]]; discriminate.
Defined.

(** X4. A click on a category that is not selected narrows the output to
    the snippets of the former output that carry the category; a click on
    a selected category never removes a snippet from the output. *)
Theorem category_click_narrows {P : Platform} (p : Props) (category : string)
    (c : Component) :
  (~ In category (selectedCategories (state c)) ->
   forall s, In s (filteredSnippets p (state (handleCategoryClick category c)))
             <-> In s (filteredSnippets p (state c)) /\ In category (categories s))
  /\ (In category (selectedCategories (state c)) ->
      forall s, In s (filteredSnippets p (state c)) ->
                In s (filteredSnippets p (state (handleCategoryClick category c)))).
Proof.
  split.
  - intros N s. rewrite !filteredSnippets_In, !keep_true_iff.
    rewrite handleCategoryClick_selected.
    assert (E : Array_includes (selectedCategories (state c)) category = false).
    { destruct (Array_includes _ category) eqn:K; [|reflexivity].
      apply Array_includes_In in K. contradiction. }
    rewrite E. cbn [handleCategoryClick state searchTerm selectedLanguage
                    setSelectedCategories].
    rewrite !categoryMatch_spec.
    split.
    + intros [Hs [F [T [L C]]]]. repeat split; try assumption.
      * intros cat Hc. apply C, in_or_app. now left.
      * apply C, in_or_app. right. now left.
    + intros [[Hs [F [T [L C]]]] Hc]. repeat split; try assumption.
      intros cat Hin. apply in_app_or in Hin. destruct Hin as [Hin|[<-|[]]]; auto.
  - intros Y s. rewrite !filteredSnippets_In, !keep_true_iff.
    rewrite handleCategoryClick_selected.
    apply Array_includes_In in Y. rewrite Y.
    cbn [handleCategoryClick state searchTerm selectedLanguage setSelectedCategories].
    rewrite !categoryMatch_spec.
    intros [Hs [F [T [L C]]]]. repeat split; try assumption.
    intros cat Hin. apply without_In in Hin. apply C. tauto.
Qed.

(** On [samplePlatform]: a click on b keeps [S1], which is tagged a and b. *)
Lemma category_click_narrows_witness :
  let c := {| state := defaultState newest; searchParams := buildParams [] "" |} in
  In S1 (filteredSnippets (propsOf [S1; S2]) (state (handleCategoryClick "b" c))).
Proof.
  cbv zeta.
  apply (proj1 (category_click_narrows (propsOf [S1; S2]) "b"
                  {| state := defaultState newest; searchParams := buildParams [] "" |})).
  - intros [].
  - split; [left; reflexivity | right; left; reflexivity].
Defined.

(** X5. Turning "include code in search" on never removes a snippet from
    the output. *)
Theorem include_code_widens {P : Platform} (p : Props) (st : ViewState) (s : Snippet) :
  In s (filteredSnippets (withIncludeCode false p) st) ->
  In s (filteredSnippets (withIncludeCode true p) st).
Proof.
  rewrite !filteredSnippets_In, !keep_true_iff.
  cbn [withIncludeCode snippets showFavorites includeCodeInSearch].
  intros [Hs [F [T [L C]]]]. repeat split; try assumption.
  apply orb_true_iff in T. apply orb_true_iff. destruct T as [T|T]; [now left|right].
  unfold fragmentMatch in *. apply existsb_exists in T. apply existsb_exists.
  destruct T as [f [Hf T]]. exists f. split; [exact Hf|].
  cbn [andb] in T. rewrite orb_false_r in T. rewrite T. reflexivity.
Qed.

(** On [samplePlatform]: [S1] is found by its title with the option off,
    so also with it on. *)
Lemma include_code_widens_witness :
  In S1 (filteredSnippets (withIncludeCode true (propsOf [S1; S2])) alphaSearch).
Proof.
  apply (include_code_widens (propsOf [S1; S2]) alphaSearch S1).
  left. reflexivity.
Defined.

(** X6. The search ignores the case of the term: two ASCII terms that
    differ only in the case of their letters give the same output. *)
Theorem search_ignores_case {P : Platform} (p : Props) (st : ViewState)
    (term term' : string) :
  isAscii term = true -> isAscii term' = true ->
  asciiLower term = asciiLower term' ->
  filteredSnippets p (setSearchTerm term st) = filteredSnippets p (setSearchTerm term' st).
Proof.
  intros A A' E. unfold filteredSnippets. cbn [sortOrder setSearchTerm]. f_equal.
  apply filter_ext. intros s. unfold keep.
  cbn [searchTerm selectedLanguage selectedCategories setSearchTerm].
  now rewrite (toLowerCase_ascii term A), (toLowerCase_ascii term' A'), E.
Qed.

(** On [samplePlatform]: "PY" and "py" find the same snippets. *)
Lemma search_ignores_case_witness :
  filteredSnippets (propsOf [S1; S2; S3]) (setSearchTerm "PY" (defaultState newest))
  = filteredSnippets (propsOf [S1; S2; S3]) (setSearchTerm "py" (defaultState newest)).
Proof.
  apply (search_ignores_case (propsOf [S1; S2; S3]) (defaultState newest) "PY" "py");
    reflexivity.
Defined.

Section Ordering.
Context {P : Platform}.

Lemma unpinned_class_sorted (p : Props) (st : ViewState) (R : Snippet -> Snippet -> Prop) :
  Forall (fun s => is_pinned s = 0 -> dated s) (snippets p) ->
  (forall a b ta tb, time a = Num ta -> time b = Num tb -> is_pinned a = 0 -> is_pinned b = 0 ->
     (SortCompare (compareSnippets (sortOrder st)) a b
      = match sortOrder st with oldest => ta - tb | _ => tb - ta end)) ->
  (forall a b ta tb, time a = Num ta -> time b = Num tb ->
     match sortOrder st with oldest => ta - tb | _ => tb - ta end <= 0 -> R a b) ->
  StronglySorted R (unpinnedOnly (filteredSnippets p st)).
Proof.
  intros V C HR. unfold unpinnedOnly. rewrite class_of_filteredSnippets.
  set (L := filter (fun s => is_pinned s =? 0) (filter (keep p st) (snippets p))).
  set (Q := fun s => is_pinned s = 0 /\ dated s).
  assert (QL : Forall Q L).
  { rewrite Forall_forall in *. intros s Hs. unfold L in Hs.
    apply filter_In in Hs. destruct Hs as [Hs Hp]. apply filter_In in Hs.
    apply Z.eqb_eq in Hp. split; [exact Hp | apply V; tauto]. }
  apply (StronglySorted_weaken (sortsBefore (compareSnippets (sortOrder st))) R Q).
  - intros a b [Pa [ta Ha]] [Pb [tb Hb]] S. unfold sortsBefore in S.
    rewrite (C a b ta tb Ha Hb Pa Pb) in S. exact (HR a b ta tb Ha Hb S).
  - rewrite Forall_forall in *. intros s Hs.
    apply (proj1 (Array_sort_In _ _ _)) in Hs. auto.
  - apply (Array_sort_sorted _ Q); [| |exact QL].
    + intros x y [Px [tx Hx]] [Py [ty Hy]].
      rewrite (C x y tx ty Hx Hy Px Py), (C y x ty tx Hy Hx Py Px).
      destruct (sortOrder st); lia.
    + intros x y z [Px [tx Hx]] [Py [ty Hy]] [Pz [tz Hz]].
      rewrite (C x y tx ty Hx Hy Px Py), (C y z ty tz Hy Hz Py Pz),
        (C x z tx tz Hx Hz Px Pz).
      destruct (sortOrder st); lia.
Qed.
End Ordering.

(** X7. When the timestamps of the unpinned snippets parse, the unpinned
    snippets of the output stand most recently updated first under
    [newest] and least recently updated first under [oldest]. *)
Theorem unpinned_by_time {P : Platform} (p : Props) (st : ViewState) :
  Forall (fun s => is_pinned s = 0 -> dated s) (snippets p) ->
  match sortOrder st with
  | newest => StronglySorted notOlder (unpinnedOnly (filteredSnippets p st))
  | oldest => StronglySorted notNewer (unpinnedOnly (filteredSnippets p st))
  | _ => True
  end.
Proof.
  intros V. destruct (sortOrder st) eqn:E; try exact I.
  - apply unpinned_class_sorted; [exact V | |]; rewrite E.
    + intros a b ta tb Ha Hb Pa Pb. unfold SortCompare.
      rewrite compare_unpinned by assumption. now rewrite Ha, Hb.
    + intros a b ta tb Ha Hb H. exists ta, tb. repeat split; auto. lia.
  - apply unpinned_class_sorted; [exact V | |]; rewrite E.
    + intros a b ta tb Ha Hb Pa Pb. unfold SortCompare.
      rewrite compare_unpinned by assumption. now rewrite Ha, Hb.
    + intros a b ta tb Ha Hb H. exists ta, tb. repeat split; auto. lia.
Qed.

(** On [samplePlatform]: under [oldest], [S2] (March) comes before [S5]
    (April). *)
Lemma unpinned_by_time_witness :
  unpinnedOnly (filteredSnippets (propsOf [S5; S1; S2]) (defaultState oldest)) = [S2; S5]
  /\ StronglySorted notNewer
       (unpinnedOnly (filteredSnippets (propsOf [S5; S1; S2]) (defaultState oldest))).
Proof.
  split; [reflexivity|].
  refine (unpinned_by_time (propsOf [S5; S1; S2]) (defaultState oldest) _).
  repeat constructor; intros _; eexists; vm_compute; reflexivity.
Defined.

Lemma Array_sort_id {A : Type} (c : A -> A -> number) (l : list A) :
  StronglySorted (sortsBefore c) l -> Array_sort c l = l.
Proof.
  induction 1 as [|x l S IH F]; simpl; [reflexivity|].
  rewrite IH. destruct l as [|y l]; [reflexivity|].
  apply insert_before. inversion F; subst. assumption.
Qed.

Lemma filter_all {A : Type} (f : A -> bool) (l : list A) :
  Forall (fun a => f a = true) l -> filter f l = l.
Proof.
  induction 1 as [|x l H F IH]; simpl; [reflexivity|]. now rewrite H, IH.
Qed.

Section Consistency.
Context {P : Platform}.

Ltac split_pins :=
  repeat match goal with
         | |- context [Z.eqb ?a ?b] => destruct (Z.eqb_spec a b)
         end.

(** On snippets whose timestamps parse the comparator is consistent. *)
Lemma compareSnippets_total (so : SortOrder) (x y : Snippet) :
  dated x -> dated y ->
  0 < SortCompare (compareSnippets so) x y -> SortCompare (compareSnippets so) y x <= 0.
Proof.
  intros [tx Hx] [ty Hy]. unfold SortCompare, compareSnippets.
  rewrite Hx, Hy.
  pose proof (localeCompare_antisym (title x) (title y)) as LA.
  split_pins; destruct so; cbn [minus negb andb]; lia.
Qed.

Lemma compareSnippets_trans (so : SortOrder) (x y z : Snippet) :
  dated x -> dated y -> dated z ->
  SortCompare (compareSnippets so) x y <= 0 ->
  SortCompare (compareSnippets so) y z <= 0 ->
  SortCompare (compareSnippets so) x z <= 0.
Proof.
  intros [tx Hx] [ty Hy] [tz Hz]. unfold SortCompare, compareSnippets.
  rewrite Hx, Hy, Hz.
  pose proof (localeCompare_trans (title x) (title y) (title z)) as T1.
  pose proof (localeCompare_trans (title z) (title y) (title x)) as T2.
  split_pins; destruct so; cbn [minus negb andb]; lia.
Qed.

Lemma filteredSnippets_sorted (p : Props) (st : ViewState) :
  Forall dated (snippets p) ->
  StronglySorted (sortsBefore (compareSnippets (sortOrder st))) (filteredSnippets p st).
Proof.
  intros V. unfold filteredSnippets.
  apply (Array_sort_sorted _ dated).
  - intros x y. apply compareSnippets_total.
  - intros x y z. apply compareSnippets_trans.
  - rewrite Forall_forall in *. intros s Hs. apply filter_In in Hs. apply V. tauto.
Qed.
End Consistency.

(** X8. When the timestamps of the input parse, the output is ordered by
    the comparator, and running the pipeline again on its own output, with
    the same filters and sort order, returns that output unchanged. *)
Theorem pipeline_idempotent {P : Platform} (p : Props) (st : ViewState) :
  Forall dated (snippets p) ->
  StronglySorted (sortsBefore (compareSnippets (sortOrder st))) (filteredSnippets p st)
  /\ filteredSnippets (withSnippets (filteredSnippets p st) p) st = filteredSnippets p st.
Proof.
  intros V. pose proof (filteredSnippets_sorted p st V) as S. split; [exact S|].
  unfold filteredSnippets at 1. cbn [snippets withSnippets].
  assert (K : filter (keep (withSnippets (filteredSnippets p st) p) st) (filteredSnippets p st)
              = filteredSnippets p st).
  { apply filter_all. rewrite Forall_forall. intros s Hs.
    apply filteredSnippets_In in Hs. destruct Hs as [_ Hs]. exact Hs. }
  rewrite K. now apply Array_sort_id.
Qed.

(** On [samplePlatform], with the three snippets of the example. *)
Lemma pipeline_idempotent_witness :
  filteredSnippets
    (withSnippets (filteredSnippets (propsOf [S1; S2; S3]) (defaultState alpha_desc))
       (propsOf [S1; S2; S3]))
    (defaultState alpha_desc)
  = filteredSnippets (propsOf [S1; S2; S3]) (defaultState alpha_desc).
Proof.
  apply (proj2 (pipeline_idempotent (propsOf [S1; S2; S3]) (defaultState alpha_desc)
                  ltac:(repeat constructor; eexists; vm_compute; reflexivity))).
Defined.

(** * The query string *)

Example split_ex :
  split "," "a,b" = ["a"; "b"] /\ split "," "" = [""] /\ split "," ",x," = [""; "x"; ""].
Proof. repeat split. Qed.

Lemma join_cons2 (x y : string) (l : list string) :
  join "," (x :: y :: l) = (x ++ "," ++ join "," (y :: l))%string.
Proof. reflexivity. Qed.

Lemma append_empty (a b : string) : (a ++ b)%string = "" -> a = "" /\ b = "".
Proof. destruct a; simpl; [auto | discriminate]. Qed.

(** Only the empty selection and the selection of the empty category join
    to the empty string. *)
Lemma join_empty (l : list string) : join "," l = "" <-> l = [] \/ l = [""].
Proof.
  split.
  - destruct l as [|x [|y l]].
    + now left.
    + simpl. intros ->. now right.
    + rewrite join_cons2. intros H. apply append_empty in H.
      destruct H as [_ H]. discriminate.
  - intros [->| ->]; reflexivity.
Qed.

Lemma truthy_false (s : string) : truthy s = false <-> s = "".
Proof. unfold truthy. rewrite negb_false_iff. apply String.eqb_eq. Qed.

Lemma prefix_comma (c : ascii) (s : string) :
  String.prefix "," (String c s) = Ascii.eqb c ",".
Proof.
  change (String.prefix "," (String c s))
    with (if ascii_dec "," c then String.prefix "" s else false).
  destruct (ascii_dec "," c) as [<-|N].
  - now destruct s.
  - symmetry. apply Ascii.eqb_neq. congruence.
Qed.

Lemma commaFree_cons (c : ascii) (s : string) :
  commaFree (String c s) <-> c <> ","%char /\ commaFree s.
Proof.
  unfold commaFree. cbn [includes].
  rewrite orb_false_iff, prefix_comma, Ascii.eqb_neq. tauto.
Qed.

Lemma split_commaFree (s rest : string) :
  commaFree s ->
  split "," s = [s]
  /\ split "," (s ++ "," ++ rest) = s :: split "," rest.
Proof.
  induction s as [|c s IH]; intros F.
  - split; reflexivity.
  - apply commaFree_cons in F. destruct F as [N F]. destruct (IH F) as [I1 I2].
    assert (E : Ascii.eqb c "," = false) by now apply Ascii.eqb_neq.
    split; simpl; rewrite E; [now rewrite I1 | simpl in I2; now rewrite I2].
Qed.

(** [split] undoes [join] on a non-empty list of categories without
    commas. *)
Lemma split_join (l : list string) :
  l <> [] -> Forall commaFree l -> split "," (join "," l) = l.
Proof.
  induction l as [|x [|y l] IH]; intros N F.
  - contradiction.
  - inversion F; subst. now apply split_commaFree.
  - inversion F as [|? ? Fx Fl]; subst. rewrite join_cons2.
    rewrite (proj2 (split_commaFree x (join "," (y :: l)) Fx)).
    rewrite IH; [reflexivity | discriminate | exact Fl].
Qed.

Lemma buildParams_language (cats : list string) (language : string) :
  SearchParams.language (buildParams cats language)
  = if truthy language then Some language else None.
Proof. reflexivity. Qed.

Lemma buildParams_categories (cats : list string) (language : string) :
  SearchParams.categories (buildParams cats language)
  = match cats with [] => None | _ :: _ => Some (join "," cats) end.
Proof. destruct cats; reflexivity. Qed.

(** X9. After a click on a category the query string is the one written
    for the new state.  After a change of language it is too, except when
    the selection is the single empty category: [handleLanguageChange]
    tests the joined string, which is then empty, and drops the parameter
    that [handleCategoryClick] writes. *)
Theorem handlers_keep_url_in_step (c : Component) (category language : string) :
  inStep (handleCategoryClick category c)
  /\ (inStep (handleLanguageChange language c) <-> selectedCategories (state c) <> [""]).
Proof.
  split; [reflexivity|].
  unfold inStep, handleLanguageChange, buildParams.
  cbn [state searchParams selectedCategories selectedLanguage setSelectedLanguage].
  destruct (selectedCategories (state c)) as [|x l] eqn:E.
  - split; [discriminate | reflexivity].
  - change (0 <? Z.of_nat (List.length (x :: l))) with true.
    destruct (truthy (join "," (x :: l))) eqn:T.
    + split; [|reflexivity]. intros _ K. rewrite K in T. discriminate.
    + apply truthy_false in T. apply join_empty in T.
      destruct T as [T|T]; [discriminate|]. split; [discriminate | congruence].
Qed.

Lemma categoriesEffect_state (c : Component) (cats : list string) :
  SearchParams.categories (searchParams c)
  = match cats with [] => None | _ :: _ => Some (join "," cats) end ->
  cats <> [""] -> Forall commaFree cats ->
  (cats <> [] -> selectedCategories (state (categoriesEffect c)) = cats)
  /\ (cats = [] -> selectedCategories (state (categoriesEffect c))
                   = selectedCategories (state c))
  /\ searchTerm (state (categoriesEffect c)) = searchTerm (state c)
  /\ selectedLanguage (state (categoriesEffect c)) = selectedLanguage (state c)
  /\ sortOrder (state (categoriesEffect c)) = sortOrder (state c)
  /\ searchParams (categoriesEffect c) = searchParams c.
Proof.
  intros E N F. unfold categoriesEffect. rewrite E.
  destruct cats as [|x l]; [repeat split; auto; congruence|].
  destruct (truthy (join "," (x :: l))) eqn:T.
  - cbn [state searchParams setSelectedCategories selectedCategories searchTerm
         selectedLanguage sortOrder].
    repeat split; auto; try congruence.
    intros _. apply split_join; [discriminate | exact F].
  - apply truthy_false in T. apply join_empty in T. destruct T; congruence.
Qed.

Lemma languageEffect_state (c : Component) (language : string) :
  SearchParams.language (searchParams c)
  = (if truthy language then Some language else None) ->
  (language <> "" -> selectedLanguage (state (languageEffect c)) = language)
  /\ (language = "" -> selectedLanguage (state (languageEffect c))
                       = selectedLanguage (state c))
  /\ searchTerm (state (languageEffect c)) = searchTerm (state c)
  /\ selectedCategories (state (languageEffect c)) = selectedCategories (state c)
  /\ sortOrder (state (languageEffect c)) = sortOrder (state c)
  /\ searchParams (languageEffect c) = searchParams c.
Proof.
  intros E. unfold languageEffect. rewrite E.
  destruct (truthy language) eqn:T; cbv beta iota; rewrite ?T.
  - cbn [state searchParams setSelectedLanguage selectedCategories searchTerm
         selectedLanguage sortOrder].
    split; [reflexivity|]. split; [|repeat split].
    intros H. subst language. discriminate.
  - apply truthy_false in T. split; [intros H; contradiction|]. repeat split.
Qed.

(** X10. A link written for a selection is read back as that selection:
    a component mounted with the default state and the query string written
    for the categories [cats] and the language [lang] ends, once its two
    effects have run, with exactly [cats] and [lang] selected and the query
    string untouched, provided no category contains a comma and the
    selection is not the single empty category. *)
Theorem shared_link_restores (cats : list string) (lang : string) (so : SortOrder) :
  Forall commaFree cats -> cats <> [""] ->
  let c := urlEffects {| state := defaultState so; searchParams := buildParams cats lang |} in
  selectedCategories (state c) = cats
  /\ selectedLanguage (state c) = lang
  /\ searchParams c = buildParams cats lang.
Proof.
  intros F N. cbv zeta. unfold urlEffects.
  set (c0 := {| state := defaultState so; searchParams := buildParams cats lang |}).
  destruct (categoriesEffect_state c0 cats (buildParams_categories cats lang) N F)
    as [C1 [C2 [_ [CL [_ CP]]]]].
  assert (EL : SearchParams.language (searchParams (categoriesEffect c0))
               = if truthy lang then Some lang else None)
    by (rewrite CP; apply buildParams_language).
  destruct (languageEffect_state (categoriesEffect c0) lang EL)
    as [L1 [L2 [_ [LC [_ LP]]]]].
  split; [|split].
  - rewrite LC. destruct cats as [|x l]; [now apply C2 | apply C1; discriminate].
  - destruct (String.eqb_spec lang "") as [->|Hl]; [|now apply L1].
    rewrite L2, CL by reflexivity. reflexivity.
  - now rewrite LP, CP.
Qed.

Lemma shared_link_restores_witness :
  let c := urlEffects {| state := defaultState newest;
                         searchParams := buildParams ["a"; "b"] "Python" |} in
  selectedCategories (state c) = ["a"; "b"] /\ selectedLanguage (state c) = "Python".
Proof.
  cbv zeta.
  destruct (shared_link_restores ["a"; "b"] "Python" newest
              ltac:(repeat constructor) ltac:(discriminate)) as [H1 [H2 _]].
  exact (conj H1 H2).
Defined.

(** X11. After a click on a category the effects find nothing to change:
    they leave the component as the handler left it, provided neither the
    clicked category nor a selected one contains a comma. *)
Theorem effects_after_click (category : string) (c : Component) :
  commaFree category -> Forall commaFree (selectedCategories (state c)) ->
  urlEffects (handleCategoryClick category c) = handleCategoryClick category c.
Proof.
  intros Fc F.
  set (c1 := handleCategoryClick category c).
  set (cats := selectedCategories (state c1)).
  assert (F1 : Forall commaFree cats).
  { unfold cats, c1. rewrite handleCategoryClick_selected.
    destruct (Array_includes (selectedCategories (state c)) category).
    - rewrite Forall_forall in *. intros x Hx. apply without_In in Hx. apply F. tauto.
    - apply Forall_app. split; [exact F | now constructor]. }
  assert (P1 : searchParams c1 = buildParams cats (selectedLanguage (state c1)))
    by reflexivity.
  unfold urlEffects.
  destruct (list_eq_dec string_dec cats [""]) as [E|N].
  - (* the parameter is the empty string: neither effect acts on it *)
    assert (K : categoriesEffect c1 = c1).
    { unfold categoriesEffect. rewrite P1, buildParams_categories, E. reflexivity. }
    rewrite K.
    assert (EL : SearchParams.language (searchParams c1)
                 = if truthy (selectedLanguage (state c1))
                   then Some (selectedLanguage (state c1)) else None)
      by (rewrite P1; apply buildParams_language).
    destruct (languageEffect_state c1 _ EL) as [L1 [L2 [LT [LC [LS LP]]]]].
    apply Component_ext; auto.
    destruct (String.eqb_spec (selectedLanguage (state c1)) "") as [Hl|Hl]; auto.
  - assert (EC : SearchParams.categories (searchParams c1)
                 = match cats with [] => None | _ :: _ => Some (join "," cats) end)
      by (rewrite P1; apply buildParams_categories).
    destruct (categoriesEffect_state c1 cats EC N F1) as [C1 [C2 [CT [CL [CS CP]]]]].
    assert (EL : SearchParams.language (searchParams (categoriesEffect c1))
                 = if truthy (selectedLanguage (state c1))
                   then Some (selectedLanguage (state c1)) else None)
      by (rewrite CP, P1; apply buildParams_language).
    destruct (languageEffect_state (categoriesEffect c1) _ EL)
      as [L1 [L2 [LT [LC [LS LP]]]]].
    apply Component_ext.
    + now rewrite LT, CT.
    + destruct (String.eqb_spec (selectedLanguage (state c1)) "") as [Hl|Hl].
      * now rewrite (L2 Hl), CL.
      * now apply L1.
    + rewrite LC. destruct (list_eq_dec string_dec cats []) as [E0|N0].
      * now apply C2.
      * now apply C1.
    + now rewrite LS, CS.
    + now rewrite LP, CP.
Qed.

Lemma effects_after_click_witness :
  let c := {| state := defaultState newest; searchParams := buildParams [] "" |} in
  urlEffects (handleCategoryClick "a" c) = handleCategoryClick "a" c.
Proof.
  cbv zeta.
  apply (effects_after_click "a"
           {| state := defaultState newest; searchParams := buildParams [] "" |}).
  - reflexivity.
  - constructor.
Defined.

(** * [SettingsModal] *)

Section ValidationFacts.
Variable msg : string -> string.

Lemma validSnippet_true (s : JSON) :
  validSnippet msg s = Ok true <-> wellFormedSnippet s.
Proof.
  unfold wellFormedSnippet. split.
  - destruct s as [| | | | |o]; try discriminate. unfold validSnippet, member.
    cbn [typeof String.eqb negb].
    change (("object" =? "object")%string) with true. cbn [negb].
    destruct (getProp "title" o) as [[| | |t| |]|] eqn:T; try discriminate.
    cbn [typeof]. change (("string" =? "string")%string) with true. cbn [negb].
    destruct (getProp "fragments" o) as [[| | | |fs|]|] eqn:F; try discriminate.
    cbn [isArray negb].
    destruct (getProp "categories" o) as [[| | | |cs|]|] eqn:C; try discriminate.
    intros _. exists o, t, fs, cs. auto.
  - intros [o [t [fs [cs [-> [T [F C]]]]]]]. unfold validSnippet, member.
    now rewrite T, F, C.
Qed.

Lemma validSnippet_throw (s : JSON) (e : Settings.Thrown) :
  validSnippet msg s = Throw e -> s = JNull.
Proof.
  destruct s as [| | | | |o]; try discriminate; [reflexivity|].
  unfold validSnippet, member.
  change (negb (typeof (Some (JObject o)) =? "object")%string) with false.
  cbv beta iota.
  destruct (negb (typeof (getProp "title" o) =? "string")%string); [discriminate|].
  destruct (negb (isArray (getProp "fragments" o))); discriminate.
Qed.

Lemma validSnippet_null : validSnippet msg JNull = Throw (Settings.ErrorObject (msg "title")).
Proof. reflexivity. Qed.

Lemma every_true (f : JSON -> Result bool) (a : list JSON) :
  every f a = Ok true <-> Forall (fun x => f x = Ok true) a.
Proof.
  induction a as [|x a IH]; simpl.
  - split; [constructor | reflexivity].
  - destruct (f x) as [[|]|e] eqn:E.
    + rewrite IH. split; [now constructor | intros H; now inversion H].
    + split; [discriminate | intros H; inversion H; congruence].
    + split; [discriminate | intros H; inversion H; congruence].
Qed.

Lemma every_throw (f : JSON -> Result bool) (a : list JSON) (e : Settings.Thrown) :
  every f a = Throw e ->
  exists pre x post, a = (pre ++ x :: post)%list
    /\ Forall (fun y => f y = Ok true) pre /\ f x = Throw e.
Proof.
  induction a as [|x a IH]; simpl; [discriminate|].
  destruct (f x) as [[|]|e'] eqn:E.
  - intros H. destruct (IH H) as [pre [y [post [-> [F Hy]]]]].
    exists (x :: pre), y, post. repeat split; auto.
  - discriminate.
  - intros [= ->]. exists [], x, a. repeat split; auto.
Qed.

Lemma every_throws_at (f : JSON -> Result bool) (pre post : list JSON) (x : JSON)
    (e : Settings.Thrown) :
  Forall (fun y => f y = Ok true) pre -> f x = Throw e ->
  every f (pre ++ x :: post) = Throw e.
Proof.
  induction 1 as [|y pre H F IH]; intros E; simpl; [now rewrite E|].
  rewrite H. now apply IH.
Qed.
End ValidationFacts.

(** X12. [validateImportData] answers true exactly on an object with a
    string [version] and an array [snippets] whose elements are all
    objects with a string [title] and arrays [fragments] and [categories].
    It throws, instead of answering false, exactly when [snippets] holds a
    [null] after well-formed elements only: [typeof null] is "object", so
    the callback goes on to read [null.title]. *)
Theorem validateImportData_accepts (msg : string -> string) (data : JSON) :
  (validateImportData msg data = Ok true <-> wellFormedImport data)
  /\ (forall e, validateImportData msg data = Throw e
      <-> e = Settings.ErrorObject (msg "title")
          /\ exists o v pre post,
               data = JObject o
               /\ getProp "version" o = Some (JString v)
               /\ getProp "snippets" o = Some (JArray (pre ++ JNull :: post))
               /\ Forall wellFormedSnippet pre).
Proof.
  assert (F : forall l, Forall (fun x => validSnippet msg x = Ok true) l
                        <-> Forall wellFormedSnippet l).
  { intros l. rewrite !Forall_forall. split; intros H x Hx.
    - apply (proj1 (validSnippet_true msg x)). auto.
    - apply (proj2 (validSnippet_true msg x)). auto. }
  split.
  - unfold wellFormedImport. split.
    + destruct data as [| | | | |o]; try discriminate.
      unfold validateImportData, member. cbn [notAnObject typeof].
      change (negb ("object" =? "object")%string) with false. cbv beta iota.
      destruct (getProp "version" o) as [[| | |v| |]|] eqn:V; try discriminate.
      cbn [typeof]. change (negb ("string" =? "string")%string) with false.
      cbv beta iota.
      destruct (getProp "snippets" o) as [[| | | |a|]|] eqn:S; try discriminate.
      intros H. apply every_true, F in H. exists o, v, a. auto.
    + intros [o [v [a [-> [V [S W]]]]]]. unfold validateImportData, member.
      cbn [notAnObject typeof]. rewrite V, S.
      change (negb ("object" =? "object")%string) with false.
      change (negb (typeof (Some (JString v)) =? "string")%string) with false.
      cbv beta iota. now apply every_true, F.
  - intros e. split.
    + destruct data as [| | | | |o]; try discriminate.
      unfold validateImportData, member. cbn [notAnObject typeof].
      change (negb ("object" =? "object")%string) with false. cbv beta iota.
      destruct (getProp "version" o) as [[| | |v| |]|] eqn:V; try discriminate.
      cbn [typeof]. change (negb ("string" =? "string")%string) with false.
      cbv beta iota.
      destruct (getProp "snippets" o) as [[| | | |a|]|] eqn:S; try discriminate.
      intros H. apply every_throw in H. destruct H as [pre [x [post [-> [G T]]]]].
      pose proof (validSnippet_throw msg x e T) as ->.
      rewrite validSnippet_null in T. injection T as <-.
      split; [reflexivity|]. exists o, v, pre, post. repeat split; auto. now apply F.
    + intros [-> [o [v [pre [post [-> [V [S W]]]]]]]].
      unfold validateImportData, member. cbn [notAnObject typeof]. rewrite V, S.
      change (negb ("object" =? "object")%string) with false.
      change (negb (typeof (Some (JString v)) =? "string")%string) with false.
      cbv beta iota. apply every_throws_at; [now apply F | reflexivity].
Qed.

(** X13. [handleImportFile] does nothing when no file was chosen.  With a
    file it always ends with [importing] off, no progress shown and the
    file input cleared ([finally]), after raising exactly one toast: an
    error when the file cannot be read or is invalid, and then [addSnippet]
    is never called; a success, followed by the one call of
    [reloadSnippets], when every snippet was imported; a warning, without
    reload, when some failed. *)
Theorem handleImportFile_settles {World : Type}
    (addSnippet : Settings.Item -> bool -> World -> Settings.Outcome * World)
    (u : ImportUI World) :
  handleImportFile addSnippet None u = u
  /\ forall content : FileContent,
      let u' := handleImportFile addSnippet (Some content) u in
      importing u' = false /\ importProgress u' = None /\ fileInputValue u' = ""
      /\ match content with
         | Valid items =>
             backend u' = Settings.world (Settings.importLoop addSnippet items (backend u))
             /\ if Settings.failed (importOutcome addSnippet items (backend u)) =? 0
                then reloads u' = S (reloads u)
                     /\ exists m, importToasts u' = (importToasts u ++ [(m, "success")])%list
                else reloads u' = reloads u
                     /\ exists m, importToasts u' = (importToasts u ++ [(m, "warning")])%list
         | _ =>
             backend u' = backend u /\ reloads u' = reloads u
             /\ exists m, importToasts u' = (importToasts u ++ [(m, "error")])%list
         end.
Proof.
  split; [reflexivity|]. intros content. cbv zeta.
  destruct content as [[m|]| |items]; cbn.
  - repeat split. now exists m.
  - repeat split. now eexists.
  - repeat split. now eexists.
  - unfold importOutcome.
    destruct (Settings.failed (Settings.progress
                (Settings.importLoop addSnippet items (backend u))) =? 0);
      cbn; repeat split; now eexists.
Qed.

(** The backend rejects the second of three snippets: the import ends with
    a warning and the three calls made. *)
Example import_file_with_a_failure :
  let u := {| importing := false; importProgress := None; fileInputValue := "export.json";
              importToasts := []; reloads := 0%nat; backend := 0%nat |} in
  handleImportFile flakyBackend
    (Some (Valid [itemTitled "one"; itemTitled "bad"; itemTitled "two"])) u
  = {| importing := false; importProgress := None; fileInputValue := "";
       importToasts := [("Imported 2 snippets, 1 failed. Check console for details.",
                         "warning")];
       reloads := 0%nat; backend := 3%nat |}.
Proof. reflexivity. Qed.

(** ** The Markdown export *)

Lemma append_assoc (a b c : string) : ((a ++ b) ++ c = a ++ (b ++ c))%string.
Proof. induction a as [|x a IH]; simpl; [reflexivity | now rewrite IH]. Qed.

Lemma append_nil_r (a : string) : (a ++ "")%string = a.
Proof. induction a as [|x a IH]; simpl; [reflexivity | now rewrite IH]. Qed.

Lemma join_app (sep : string) (a b : list string) :
  a <> [] -> b <> [] ->
  join sep (a ++ b) = (join sep a ++ sep ++ join sep b)%string.
Proof.
  intros Na Nb. induction a as [|x [|y a] IH]; [contradiction| |].
  - destruct b as [|z b]; [contradiction | reflexivity].
  - change (join sep ((x :: y :: a) ++ b))
      with (x ++ sep ++ join sep ((y :: a) ++ b))%string.
    rewrite IH by discriminate.
    change (join sep (x :: y :: a)) with (x ++ sep ++ join sep (y :: a))%string.
    now rewrite !append_assoc.
Qed.

Lemma Substring_refl (s : string) : Substring s s.
Proof. exists "", "". simpl. now rewrite append_nil_r. Qed.

(** A run of lines is found, joined, in the joined whole. *)
Lemma join_run (sep : string) (pre mid post : list string) :
  mid <> [] -> Substring (join sep mid) (join sep (pre ++ mid ++ post)).
Proof.
  intros N.
  assert (R : Substring (join sep mid) (join sep (mid ++ post))).
  { destruct post as [|z post].
    - rewrite app_nil_r. apply Substring_refl.
    - rewrite join_app by (assumption || discriminate).
      exists "", (sep ++ join sep (z :: post))%string. reflexivity. }
  destruct pre as [|x pre]; [exact R|].
  rewrite join_app; [|discriminate|destruct mid; [contradiction | discriminate]].
  destruct R as [a [b R]]. rewrite R.
  exists (join sep (x :: pre) ++ sep ++ a)%string, b. now rewrite !append_assoc.
Qed.

Lemma markdownLines_empty (s : Snippet) :
  title s = "" -> description s = "" -> categories s = [] -> fragments s = [] ->
  markdownLines s = [].
Proof. unfold markdownLines. now intros -> -> -> ->. Qed.

(** X14. In the Markdown of a snippet every fragment stands as a fenced
    block: the fence followed by the fragment's language, the code on the
    lines after it, and the closing fence on a line of its own.  A snippet
    with a title starts with the title as a heading; a snippet with no
    title, description, category or fragment gives the empty string. *)
Theorem markdown_has_every_fragment (s : Snippet) :
  (forall f, In f (fragments s) ->
     Substring (fence ++ language f ++ newline ++ code f ++ newline ++ fence ++ newline)
       (snippetToMarkdown s))
  /\ (title s <> "" ->
      String.prefix ("# " ++ title s ++ newline) (snippetToMarkdown s) = true)
  /\ (title s = "" -> description s = "" -> categories s = [] -> fragments s = [] ->
      snippetToMarkdown s = "").
Proof.
  assert (O : forall x, orEmpty x = x).
  { intros x. unfold orEmpty. destruct (truthy x) eqn:T; [reflexivity|].
    apply truthy_false in T. now subst. }
  split; [|split].
  - intros f Hf. apply in_split in Hf. destruct Hf as [l1 [l2 E]].
    assert (B : (fence ++ language f ++ newline ++ code f ++ newline ++ fence ++ newline)%string
                = join newline (fragmentLines f)).
    { unfold fragmentLines. rewrite !O. cbn [join String.concat].
      now rewrite !append_assoc, append_nil_r. }
    rewrite B. unfold snippetToMarkdown, markdownLines. rewrite E, flat_map_app.
    cbn [flat_map]. rewrite !app_assoc. rewrite <- (app_assoc _ (fragmentLines f)).
    apply join_run. discriminate.
  - intros N. unfold snippetToMarkdown, markdownLines.
    assert (T : truthy (title s) = true).
    { destruct (truthy (title s)) eqn:T; [reflexivity|]. apply truthy_false in T.
      contradiction. }
    rewrite T. cbn [app].
    match goal with
    | |- context [join newline (?h :: "" :: ?rest)] =>
        change (join newline (h :: "" :: rest))
          with (h ++ newline ++ join newline ("" :: rest))%string
    end.
    apply prefix_spec. exists (join newline
      ("" :: ((if truthy (description s) then [description s; ""] else []) ++
              (if negb (Z.of_nat (List.length (categories s)) =? 0)
               then map (fun tag => (bulletPrefix ++ tag)%string) (categories s) ++ [""]
               else []) ++ flat_map fragmentLines (fragments s)))%list).
    now rewrite !append_assoc.
  - intros H1 H2 H3 H4. unfold snippetToMarkdown.
    now rewrite markdownLines_empty.
Qed.

(** The Markdown of the sample snippet [S2]. *)
Example markdown_of_S2 :
  snippetToMarkdown S2
  = ("# Beta" ++ newline ++ newline ++ "```python" ++ newline ++ "print(1)" ++ newline
     ++ "```" ++ newline)%string.
Proof. reflexivity. Qed.

Lemma markdown_has_every_fragment_witness :
  Substring (fence ++ "python" ++ newline ++ "print(1)" ++ newline ++ fence ++ newline)
    (snippetToMarkdown S1).
Proof.
  apply (proj1 (markdown_has_every_fragment S1) pyFragment). left. reflexivity.
Defined.

Lemma replaceUnsafe_chars (s : string) :
  Forall (fun c => isWordOrHyphen c = true) (chars (replaceUnsafe s))
  /\ String.length (replaceUnsafe s) = String.length s.
Proof.
  induction s as [|c s [IH1 IH2]]; simpl; [split; [constructor | reflexivity]|].
  split; [|now rewrite IH2].
  constructor; [|exact IH1].
  destruct (isWordOrHyphen c) eqn:E; [exact E | reflexivity].
Qed.

Lemma replaceUnsafe_safe (s : string) :
  Forall (fun c => isWordOrHyphen c = true) (chars s) -> replaceUnsafe s = s.
Proof.
  induction s as [|c s IH]; simpl; intros F; [reflexivity|].
  inversion F as [|? ? Hc Fs]; subst. now rewrite Hc, IH.
Qed.

(** X15. For a snippet with an ASCII title, the file name in the Markdown
    archive is a stem followed by ".md"; the stem has the length of the
    title (of "snippet" when the title is empty), is never empty, and
    holds only letters, digits, underscores and hyphens; a title made of
    such characters only is its own stem. *)
Theorem markdownFileName_safe (s : Snippet) :
  isAscii (title s) = true ->
  exists stem,
    markdownFileName s = (stem ++ ".md")%string
    /\ stem <> ""
    /\ Forall (fun c => isWordOrHyphen c = true) (chars stem)
    /\ String.length stem
       = String.length (if truthy (title s) then title s else "snippet")
    /\ (title s <> "" -> Forall (fun c => isWordOrHyphen c = true) (chars (title s)) ->
        stem = title s).
Proof.
  intros _. unfold markdownFileName.
  set (t := if truthy (title s) then title s else "snippet").
  exists (replaceUnsafe t). destruct (replaceUnsafe_chars t) as [C L].
  split; [reflexivity|]. split; [|split; [exact C|split; [exact L|]]].
  - intros E. rewrite E in L. unfold t in L.
    destruct (truthy (title s)) eqn:T; [|discriminate].
    destruct (title s); [discriminate | discriminate].
  - intros N F. unfold t. destruct (truthy (title s)) eqn:T.
    + now apply replaceUnsafe_safe.
    + apply truthy_false in T. contradiction.
Qed.

(** A title with a space and a dot. *)
Lemma markdownFileName_safe_witness :
  markdownFileName
    {| id := "6"; title := "My notes v1.2"; description := ""; fragments := [];
       categories := []; is_pinned := 0; is_favorite := 0; updated_at := "2024-01-01" |}
  = "My_notes_v1_2.md"
  /\ exists stem,
       markdownFileName
         {| id := "6"; title := "My notes v1.2"; description := ""; fragments := [];
            categories := []; is_pinned := 0; is_favorite := 0;
            updated_at := "2024-01-01" |}
       = (stem ++ ".md")%string
       /\ stem <> "".
Proof.
  split; [reflexivity|].
  destruct (markdownFileName_safe
              {| id := "6"; title := "My notes v1.2"; description := ""; fragments := [];
                 categories := []; is_pinned := 0; is_favorite := 0;
                 updated_at := "2024-01-01" |} eq_refl) as [stem [E [N _]]].
  exists stem. split; assumption.
Defined.

(** * The selection and the shape of the output *)

Lemma without_NoDup (category : string) (l : list string) :
  NoDup l -> NoDup (without category l).
Proof. intros N. unfold without. now apply NoDup_filter. Qed.

(** X16. A click on a category toggles its membership: a category that
    was not selected is selected afterwards, once, at the end; one that was
    selected is gone afterwards, in all its occurrences; the other
    categories stay as they were, and a selection without repetition stays
    without repetition. *)
Theorem click_toggles_membership (category : string) (c : Component) :
  let prev := selectedCategories (state c) in
  let next := selectedCategories (state (handleCategoryClick category c)) in
  (In category next <-> ~ In category prev)
  /\ (forall x, x <> category -> (In x next <-> In x prev))
  /\ (NoDup prev -> NoDup next).
Proof.
  cbv zeta. rewrite handleCategoryClick_selected.
  destruct (Array_includes (selectedCategories (state c)) category) eqn:E.
  - apply Array_includes_In in E. split; [|split].
    + rewrite without_In. tauto.
    + intros x N. rewrite without_In. tauto.
    + apply without_NoDup.
  - assert (N : ~ In category (selectedCategories (state c))).
    { intros H. apply Array_includes_In in H. congruence. }
    split; [|split].
    + rewrite in_app_iff. simpl. tauto.
    + intros x Hx. rewrite in_app_iff. simpl. intuition congruence.
    + intros D. apply NoDup_app; [exact D | repeat constructor; intros [] |].
      intros a Ha [<-|[]]. contradiction.
Qed.

Lemma keyDesc_blocks {A : Type} (key : A -> Z) (l : list A) :
  Forall (fun a => key a = 0 \/ key a = 1) l ->
  StronglySorted (keyDesc key) l ->
  l = (filter (hasKey key 1) l ++ filter (hasKey key 0) l)%list.
Proof.
  intros F S. induction S as [|x l S IH K]; [reflexivity|].
  inversion F as [|? ? Hx Fl]; subst. specialize (IH Fl).
  cbn [filter]. destruct Hx as [Hx|Hx].
  - assert (Z : filter (hasKey key 1) l = []).
    { apply filter_below. rewrite Forall_forall in *. intros z Hz.
      specialize (K z Hz). unfold keyDesc in K. lia. }
    assert (H1 : hasKey key 1 x = false) by (unfold hasKey; rewrite Hx; reflexivity).
    assert (H0 : hasKey key 0 x = true) by (unfold hasKey; rewrite Hx; reflexivity).
    rewrite H1, H0, Z. rewrite Z in IH. simpl in *. now f_equal.
  - assert (H1 : hasKey key 1 x = true) by (unfold hasKey; rewrite Hx; reflexivity).
    assert (H0 : hasKey key 0 x = false) by (unfold hasKey; rewrite Hx; reflexivity).
    rewrite H1, H0. simpl. now f_equal.
Qed.

(** X17. When every flag [is_pinned] of the input is 0 or 1, the output is
    two blocks: the pinned snippets that pass the filter, in the stable
    order by recency, and after them the unpinned ones that pass, in the
    stable order of the chosen sort order. *)
Theorem output_in_two_blocks {P : Platform} (p : Props) (st : ViewState) :
  Forall (fun s => is_pinned s = 0 \/ is_pinned s = 1) (snippets p) ->
  filteredSnippets p st
  = (Array_sort byRecency (pinnedOnly (filter (keep p st) (snippets p)))
     ++ Array_sort (compareSnippets (sortOrder st))
          (unpinnedOnly (filter (keep p st) (snippets p))))%list.
Proof.
  intros F.
  assert (G : Forall (fun s => is_pinned s = 0 \/ is_pinned s = 1) (filteredSnippets p st)).
  { rewrite Forall_forall in *. intros s Hs. apply filteredSnippets_In in Hs. apply F. tauto. }
  rewrite (keyDesc_blocks is_pinned _ G (filteredSnippets_keyDesc p st)) at 1.
  f_equal.
  - apply pinnedOnly_filteredSnippets.
  - apply (class_of_filteredSnippets 0).
Qed.

(** On [samplePlatform], the example: [S3; S1] pinned, then [S2]. *)
Lemma output_in_two_blocks_witness :
  filteredSnippets (propsOf [S1; S2; S3]) (defaultState alpha_asc)
  = ([S3; S1] ++ [S2])%list.
Proof.
  rewrite (output_in_two_blocks (propsOf [S1; S2; S3]) (defaultState alpha_asc)
             ltac:(repeat constructor; (now left) || (now right))).
  reflexivity.
Defined.

(** * The record of an import *)

Section ImportRecord.
Context {World : Type}.
Variable addSnippet : Settings.Item -> bool -> World -> Settings.Outcome * World.

Lemma importOne_record (l : Settings.Loop World) (x : Settings.Item) :
  let a := (x, fst (addSnippet x false (Settings.world l))) in
  let l' := Settings.importOne addSnippet l x in
  Settings.world l' = snd (addSnippet x false (Settings.world l))
  /\ Settings.errors (Settings.progress l')
     = (Settings.errors (Settings.progress l) ++ errorEntry a)%list
  /\ Settings.succeeded (Settings.progress l')
     = Settings.succeeded (Settings.progress l) + (if resolved a then 1 else 0)
  /\ Settings.failed (Settings.progress l')
     = Settings.failed (Settings.progress l) + (if resolved a then 0 else 1).
Proof.
  cbv zeta. unfold Settings.importOne, errorEntry, resolved.
  destruct (addSnippet x false (Settings.world l)) as [[|e] w]; cbn;
    rewrite ?app_nil_r; repeat split; lia.
Qed.

Lemma importFold_record (items : list Settings.Item) (l : Settings.Loop World) :
  let l' := fold_left (Settings.importOne addSnippet) items l in
  let calls := attempts addSnippet items (Settings.world l) in
  Settings.errors (Settings.progress l')
  = (Settings.errors (Settings.progress l) ++ flat_map errorEntry calls)%list
  /\ Settings.succeeded (Settings.progress l')
     = Settings.succeeded (Settings.progress l)
       + Z.of_nat (List.length (filter resolved calls))
  /\ Settings.failed (Settings.progress l')
     = Settings.failed (Settings.progress l)
       + Z.of_nat (List.length (filter (fun a => negb (resolved a)) calls)).
Proof.
  revert l. induction items as [|x items IH]; intros l; cbn [fold_left attempts].
  - cbv zeta. cbn. rewrite app_nil_r. repeat split; lia.
  - specialize (IH (Settings.importOne addSnippet l x)). cbv zeta in IH |- *.
    destruct IH as [E [S F]]. rewrite E, S, F. clear E S F.
    destruct (importOne_record l x) as [W [E1 [S1 F1]]]. rewrite W, E1, S1, F1.
    destruct (addSnippet x false (Settings.world l)) as [o w] eqn:A.
    cbn [fst snd flat_map filter]. rewrite <- app_assoc.
    destruct (resolved (x, o)); cbn [negb List.length]; repeat split; lia.
Qed.
End ImportRecord.

(** X18. The record of a finished import tells what happened, call by
    call: [succeeded] counts the calls of [addSnippet] that resolved,
    [failed] those that were rejected, and [errors] lists, in the order of
    the file, the title of each rejected snippet with the message of its
    error ("Unknown error" when what was thrown is no [Error]). *)
Theorem import_record_is_exact {World : Type}
    (addSnippet : Settings.Item -> bool -> World -> Settings.Outcome * World)
    (items : list Settings.Item) (w : World) :
  let pr := Settings.progress (Settings.importLoop addSnippet items w) in
  let calls := attempts addSnippet items w in
  map fst calls = items
  /\ Settings.errors pr = flat_map errorEntry calls
  /\ Settings.succeeded pr = Z.of_nat (List.length (filter resolved calls))
  /\ Settings.failed pr
     = Z.of_nat (List.length (filter (fun a => negb (resolved a)) calls)).
Proof.
  cbv zeta. split.
  - revert w. induction items as [|x items IH]; intros w; cbn [attempts]; [reflexivity|].
    destruct (addSnippet x false w) as [o w']. cbn [map fst]. now rewrite IH.
  - unfold Settings.importLoop.
    destruct (importFold_record addSnippet items (Settings.importStart items w))
      as [E [S F]].
    cbv zeta in E, S, F.
    cbn [Settings.importStart Settings.progress Settings.world Settings.errors
         Settings.succeeded Settings.failed app] in E, S, F.
    rewrite E, S, F. repeat split; lia.
Qed.

(** * The default view, and what the import loop calls *)

Lemma sortsBefore_inOrder {P : Platform} (so : SortOrder) (a b : Snippet) :
  dated a -> dated b -> sortsBefore (compareSnippets so) a b -> inOrder so a b.
Proof.
  intros [ta Ha] [tb Hb]. unfold sortsBefore, SortCompare, compareSnippets, inOrder.
  rewrite Ha, Hb.
  destruct (Z.eqb_spec (is_pinned a) (is_pinned b)) as [E|E]; cbn [negb].
  - intros H. right. split; [exact E|]. rewrite <- E in H.
    destruct (is_pinned a =? 1); cbn [andb] in H |- *.
    + exists ta, tb. cbn [minus] in H. repeat split; auto. lia.
    + pose proof (localeCompare_antisym (title a) (title b)) as LA.
      destruct so; cbn [minus] in H.
      * exists ta, tb. repeat split; auto. lia.
      * exists ta, tb. repeat split; auto. lia.
      * exact H.
      * lia.
  - intros H. left. lia.
Qed.

(** C7. With the default filters (empty search term, no language, no
    category, favourites off) the pipeline returns the whole input, every
    snippet exactly once, in the sorted order: pinned flags never
    increasing along the output, whatever the timestamps; and, when the
    timestamps parse, every snippet before the ones that the pin rule, the
    recency of pinned snippets and the chosen sort order put after it.
    Nothing fails on the way (a timestamp that does not parse makes the
    comparator yield [NaN], which the sort reads as 0); on the empty
    collection the result is the empty list. *)
Theorem default_filters_keep_all {P : Platform}
    (l : list Snippet) (includeCode callback : bool) (so : SortOrder) :
  let p := {| snippets := l; includeCodeInSearch := includeCode;
              showFavorites := false; onPermanentDeleteAll := callback |} in
  filteredSnippets p (defaultState so) = Array_sort (compareSnippets so) l
  /\ Permutation (filteredSnippets p (defaultState so)) l
  /\ List.length (filteredSnippets p (defaultState so)) = List.length l
  /\ StronglySorted (keyDesc is_pinned) (filteredSnippets p (defaultState so))
  /\ (Forall dated l -> StronglySorted (inOrder so) (filteredSnippets p (defaultState so)))
  /\ filteredSnippets {| snippets := []; includeCodeInSearch := includeCode;
                         showFavorites := false; onPermanentDeleteAll := callback |}
       (defaultState so) = [].
Proof.
  intros p.
  assert (E : filteredSnippets p (defaultState so) = Array_sort (compareSnippets so) l).
  { unfold filteredSnippets. now rewrite filter_keep_default. }
  split; [exact E|]. split; [rewrite E; apply Array_sort_perm|]. split; [|split; [|split]].
  - rewrite E. apply Permutation_length, Array_sort_perm.
  - apply filteredSnippets_keyDesc.
  - intros V.
    apply (StronglySorted_weaken (sortsBefore (compareSnippets so)) (inOrder so) dated).
    + apply sortsBefore_inOrder.
    + rewrite Forall_forall in *. intros s Hs. apply V.
      apply (Permutation_in s (Array_sort_perm (compareSnippets so) l)).
      now rewrite <- E.
    + exact (filteredSnippets_sorted p (defaultState so) V).
  - reflexivity.
Qed.

(** On [samplePlatform], the three snippets of the example under
    [alpha-asc]. *)
Lemma default_filters_keep_all_witness :
  filteredSnippets (propsOf [S1; S2; S3]) (defaultState alpha_asc) = [S3; S1; S2]
  /\ StronglySorted (inOrder alpha_asc)
       (filteredSnippets (propsOf [S1; S2; S3]) (defaultState alpha_asc)).
Proof.
  split; [reflexivity|].
  apply (proj1 (proj2 (proj2 (proj2 (proj2
           (default_filters_keep_all [S1; S2; S3] false true alpha_asc)))))).
  repeat constructor; eexists; vm_compute; reflexivity.
Defined.

Lemma importFold_world {World : Type}
    (addSnippet : Settings.Item -> bool -> World -> Settings.Outcome * World)
    (items : list Settings.Item) (l : Settings.Loop World) :
  Settings.world (fold_left (Settings.importOne addSnippet) items l)
  = backendAfter addSnippet items (Settings.world l).
Proof.
  revert l. induction items as [|x items IH]; intros l; [reflexivity|].
  cbn [fold_left backendAfter]. rewrite IH.
  destruct (importOne_record addSnippet l x) as [W _]. rewrite W. reflexivity.
Qed.

Lemma attempts_items {World : Type}
    (addSnippet : Settings.Item -> bool -> World -> Settings.Outcome * World)
    (items : list Settings.Item) (w : World) :
  map fst (attempts addSnippet items w) = items.
Proof.
  revert w. induction items as [|x items IH]; intros w; cbn [attempts]; [reflexivity|].
  destruct (addSnippet x false w) as [o w']. cbn [map fst]. now rewrite IH.
Qed.

(** [attempts] is the run of the backend: each call starts from the
    backend the call before left. *)
Lemma attempts_cons {World : Type}
    (addSnippet : Settings.Item -> bool -> World -> Settings.Outcome * World)
    (x : Settings.Item) (items : list Settings.Item) (w : World) :
  attempts addSnippet (x :: items) w
  = (x, fst (addSnippet x false w))
    :: attempts addSnippet items (snd (addSnippet x false w)).
Proof. cbn [attempts]. now destruct (addSnippet x false w). Qed.

(** C10. The import loop calls [addSnippet] on every snippet of the file,
    once each and in order, each call on the backend as the call before
    left it, whether that call resolved or was rejected: the backend ends
    as these calls leave it.  When the loop ends, [current = total],
    [succeeded] is the number of calls that resolved and [failed] the
    number that were rejected, so [succeeded + failed = total]; [errors]
    holds one entry per rejected call, with the title of its snippet and
    its message, in order; and the record last published through
    [setImportProgress] is the final one. *)
Theorem import_attempts_all {World : Type}
    (addSnippet : Settings.Item -> bool -> World -> Settings.Outcome * World)
    (items : list Settings.Item) (w : World) :
  let r := Settings.importLoop addSnippet items w in
  let pr := Settings.progress r in
  let calls := attempts addSnippet items w in
  Settings.attempted r = items
  /\ map fst calls = items
  /\ Settings.world r = backendAfter addSnippet items w
  /\ Settings.total pr = Z.of_nat (List.length items)
  /\ Settings.current pr = Settings.total pr
  /\ Settings.succeeded pr = Z.of_nat (List.length (filter resolved calls))
  /\ Settings.failed pr = Z.of_nat (List.length (filter (fun a => negb (resolved a)) calls))
  /\ Settings.succeeded pr + Settings.failed pr = Settings.total pr
  /\ Settings.errors pr = flat_map errorEntry calls
  /\ Z.of_nat (List.length (Settings.errors pr)) = Settings.failed pr
  /\ (forall d, last (Settings.published r) d = pr).
Proof.
  cbv zeta. unfold Settings.importLoop.
  destruct (importFold addSnippet items (Settings.importStart items w))
    as [A [T [C [S [E L]]]]].
  destruct (importFold_record addSnippet items (Settings.importStart items w))
    as [E' [S' F']].
  pose proof (importFold_world addSnippet items (Settings.importStart items w)) as W.
  cbv zeta in E', S', F'.
  cbn [Settings.importStart Settings.attempted Settings.progress Settings.total
       Settings.current Settings.succeeded Settings.failed Settings.errors
       Settings.published Settings.world List.length app] in A, T, C, S, E, L, E', S', F', W.
  repeat split; try assumption; try lia.
  - apply attempts_items.
  - apply L. reflexivity.
Qed.
